(** * Schema attribute extraction and credential attribute conversion

    A shallow embedding of [internal/jsonschema/schema.go]: the walk over
    [properties.credentialSubject.properties] performed by [AttributeNames]
    and the validate-and-convert pass of [ValidateAndConvert], together with
    the parts of the Go standard library ([strconv]) and of
    [mitchellh/mapstructure] that decide their results.

    Conventions.
    - A Go [string] is a sequence of bytes: Rocq's [string].
    - A Go [int] is a 64-bit two's complement integer, carried in [Z]; the
      wrap-around of the machine operations is written out.
    - A Go [map[string]any] is an association list.  A Go map has pairwise
      distinct keys and [range] visits them in an unspecified order: the
      order of the list stands for the order in which [range] visits the
      map, and [distinct_keys] states the distinctness.  Lookups take the
      first binding.
    - A Go call either returns a value, returns an error, or panics:
      [result]. *)

From Stdlib Require Import ZArith Lia Bool.
From stdpp Require Import list strings.

#[local] Set Warnings "-register-all".
#[local] Open Scope Z_scope.

(** ** Dynamically typed values *)

(** The dynamic types an [any] holds in this package: what [encoding/json]
    puts into a [map[string]any] (nil, bool, float64, string, []any,
    map[string]any) and the [int] produced by the conversion.  A float64 is
    kept as its IEEE-754 bit pattern. *)
Inductive any : Type :=
| Nil
| Str (s : string)
| Bool (b : bool)
| Int (n : Z)
| Float64 (bits : Z)
| Slice (l : list any)
| Map (m : list (string * any)).

(** The two-valued [v, ok := m[key]] on a [map[string]any]. *)
Fixpoint map_lookup (m : list (string * any)) (key : string) : option any :=
  match m with
  | [] => None
  | (k, v) :: rest => if decide (k = key) then Some v else map_lookup rest key
  end.

(** [m[key]]: the zero value [Nil] when the key is absent. *)
Definition map_index (m : list (string * any)) (key : string) : any :=
  default Nil (map_lookup m key).

(** The type assertion [v.(map[string]any)] in its two-valued form. *)
Definition assert_map (v : any) : option (list (string * any)) :=
  match v with
  | Map m => Some m
  | _ => None
  end.

(** The type assertion [v.(string)] in its two-valued form. *)
Definition assert_string (v : any) : option string :=
  match v with
  | Str s => Some s
  | _ => None
  end.

Definition keys (m : list (string * any)) : list string := m.*1.

Definition distinct_keys (m : list (string * any)) : Prop := NoDup (keys m).

(** ** Errors, panics and results *)

(** The error values met in the package, by the call that builds them,
    with the operands of their messages.
    - [ErrProcessSchema] is the package variable of that name;
    - [newCredentialLinkAttributeError] is the constructor of the package's
      error type for rejected credential attributes (declared in another
      file of the package): it is kept as a constructor applied to its
      message;
    - [mapstructure_ExpectedMap name got] is the error of [mapstructure] for
      an input that is not a map, and [mapstructure_Error] its accumulated
      error: one entry (field name, offending value) per field whose value
      is not a string;
    - [fmt_Errorf format operand wrapped] is
      [fmt.Errorf(format, operand, wrapped)]. *)
Inductive error : Type :=
| ErrProcessSchema
| errors_New (text : string)
| newCredentialLinkAttributeError (msg : string)
| mapstructure_ExpectedMap (name : string) (got : any)
| mapstructure_Error (failures : list (string * any))
| fmt_Errorf (format : string) (operand : any) (wrapped : error).

(** Run-time panics of indexing and slicing, with the values the run time
    reports:
    - [IndexOutOfRange x y] is "index out of range [x] with length y";
    - [SliceBoundsOutOfRangeAcap x y] is "slice bounds out of range [:x]
      with capacity y", the failed check of the upper bound of a slice
      expression on a slice; for a negative [x] the message is
      "slice bounds out of range [:x]" and leaves [y] out;
    - [SliceBoundsOutOfRangeB x y] is "slice bounds out of range [x:y]", the
      failed check of the lower bound against the upper one. *)
Inductive panic : Type :=
| IndexOutOfRange (index : Z) (len : nat)
| SliceBoundsOutOfRangeAcap (x : Z) (capacity : nat)
| SliceBoundsOutOfRangeB (x : Z) (y : nat).

Inductive result (A : Type) : Type :=
| Ok (a : A)
| Err (e : error)
| Panics (p : panic).

Arguments Ok {A} a.
Arguments Err {A} e.
Arguments Panics {A} p.

(** ** Bytes and machine integers *)

Definition byte_of (c : Ascii.ascii) : Z := Z.of_N (Ascii.N_of_ascii c).

(** [[]byte(s)] *)
Fixpoint bytes (s : string) : list Z :=
  match s with
  | EmptyString => []
  | String c rest => byte_of c :: bytes rest
  end.

Definition wrap_byte (z : Z) : Z := z mod 2 ^ 8.

Definition wrap_uint64 (z : Z) : Z := z mod 2 ^ 64.

(** Two's complement wrap-around of a 64-bit [int]. *)
Definition wrap_int (z : Z) : Z := (z + 2 ^ 63) mod 2 ^ 64 - 2 ^ 63.

(** ** strconv *)

Module strconv.

Inductive NumError : Type := ErrSyntax | ErrRange.

Definition intSize : Z := 64.

Definition maxUint64 : Z := 2 ^ 64 - 1.

(** [lower(c)]: [c | ('x' - 'X')]. *)
Definition lower (c : Z) : Z := Z.lor c 32.

(** The loop of [ParseUint(s, 10, 64)] from accumulator [n]: the value and
    the error it returns.  [base] is 10, so the branch for the underscore
    ([base == 0] only) is never taken. *)
Fixpoint ParseUint_loop (s : list Z) (n : Z) : Z * option NumError :=
  let base := 10 in
  let cutoff := maxUint64 / 10 + 1 in
  let maxVal := wrap_uint64 (wrap_uint64 (Z.shiftl 1 64) - 1) in
  match s with
  | [] => (n, None)
  | c :: rest =>
      let digit :=
        if (48 <=? c) && (c <=? 57) then Some (c - 48)
        else if (97 <=? lower c) && (lower c <=? 122) then Some (lower c - 97 + 10)
        else None in
      match digit with
      | None => (0, Some ErrSyntax)
      | Some d =>
          if base <=? d then (0, Some ErrSyntax)
          else if cutoff <=? n then (maxVal, Some ErrRange)
          else
            let n := wrap_uint64 (n * base) in
            let n1 := wrap_uint64 (n + d) in
            if (n1 <? n) || (maxVal <? n1) then (maxVal, Some ErrRange)
            else ParseUint_loop rest n1
      end
  end.

Definition ParseUint (s : list Z) : Z * option NumError :=
  match s with
  | [] => (0, Some ErrSyntax)
  | _ => ParseUint_loop s 0
  end.

(** [ParseInt(s, 10, 0)] *)
Definition ParseInt (s : list Z) : Z * option NumError :=
  match s with
  | [] => (0, Some ErrSyntax)
  | s0 :: tl =>
      let neg := s0 =? 45 in
      let s := if s0 =? 43 then tl else if s0 =? 45 then tl else s in
      let '(un, err) := ParseUint s in
      match err with
      | Some ErrSyntax => (0, err)
      | _ =>
          let cutoff := Z.shiftl 1 (intSize - 1) in
          if negb neg && (cutoff <=? un) then (cutoff - 1, Some ErrRange)
          else if neg && (cutoff <? un) then (- cutoff, Some ErrRange)
          else
            let n := wrap_int un in
            (if neg then wrap_int (- n) else n, None)
      end
  end.

(** The digit loop of the fast path of [Atoi]. *)
Fixpoint Atoi_loop (s : list Z) (n : Z) : option Z :=
  match s with
  | [] => Some n
  | ch :: rest =>
      let ch := wrap_byte (ch - 48) in
      if 9 <? ch then None else Atoi_loop rest (wrap_int (n * 10 + ch))
  end.

(** [Atoi(s)]: the [int] and the error it returns. *)
Definition Atoi (s : string) : Z * option NumError :=
  let sLen := Z.of_nat (String.length s) in
  if (0 <? sLen) && (sLen <? 19) then
    match bytes s with
    | [] => (0, Some ErrSyntax)
    | s0 :: tl =>
        let signed := (s0 =? 45) || (s0 =? 43) in
        if signed && (Z.of_nat (length tl) <? 1) then (0, Some ErrSyntax)
        else
          match Atoi_loop (if signed then tl else s0 :: tl) 0 with
          | None => (0, Some ErrSyntax)
          | Some n => (if s0 =? 45 then wrap_int (- n) else n, None)
          end
    end
  else ParseInt (bytes s).

(** [ParseBool(str)] *)
Definition ParseBool (str : string) : bool * option NumError :=
  match str with
  | "1" | "t" | "T" | "TRUE" | "true" | "True" => (true, None)
  | "0" | "f" | "F" | "FALSE" | "false" | "False" => (false, None)
  | _ => (false, Some ErrSyntax)
  end.

End strconv.

(** ** mapstructure *)

(** A json schema attribute (the struct [Attribute] of the package). *)
Record Attribute : Type := mkAttribute {
  ID : string;
  Title : string;
  Type_ : string;
  Format : string
}.

Module mapstructure.

Definition fold_byte (c : Z) : Z :=
  if (65 <=? c) && (c <=? 90) then c + 32 else c.

(** [strings.EqualFold(s, t)], the default [MatchName].  It is used here
    with [t] one of ID, Title, Type and Format only: none of their letters
    has a case variant outside ASCII, so Unicode simple folding agrees
    with folding the ASCII capitals. *)
Definition EqualFold (s t : string) : bool :=
  bool_decide (fold_byte <$> bytes s = fold_byte <$> bytes t).

(** The slower search of [decodeStructFromMap]: the first key visited
    that matches the field name up to case. *)
Fixpoint search_fold (m : list (string * any)) (fieldName : string) : option any :=
  match m with
  | [] => None
  | (mK, v) :: rest =>
      if EqualFold mK fieldName then Some v else search_fold rest fieldName
  end.

(** The map entry [decodeStructFromMap] picks for a field: the entry under
    the field's name if the map has one, else the one found by the slower
    search. *)
Definition rawMapVal (m : list (string * any)) (fieldName : string) : option any :=
  match map_lookup m fieldName with
  | Some v => Some v
  | None => search_fold m fieldName
  end.

(** Decoding one [string] field: the new value of the field and the
    failures to add.  No entry or a nil entry leaves the field as it is; a
    string is stored; without [WeaklyTypedInput] anything else is
    rejected. *)
Definition decodeString (m : list (string * any)) (fieldName : string) (field : string)
  : string * list (string * any) :=
  match rawMapVal m fieldName with
  | None => (field, [])
  | Some Nil => (field, [])
  | Some (Str s) => (s, [])
  | Some data => (field, [(fieldName, data)])
  end.

(** [Decode(input, &output)] for an [Attribute]: the struct after the call
    and the error returned. *)
Definition Decode (input : any) (output : Attribute) : Attribute * option error :=
  match input with
  | Nil => (output, None)
  | Map m =>
      let '(id, e1) := decodeString m "ID" (ID output) in
      let '(title, e2) := decodeString m "Title" (Title output) in
      let '(type, e3) := decodeString m "Type" (Type_ output) in
      let '(format, e4) := decodeString m "Format" (Format output) in
      let result := mkAttribute id title type format in
      match e1 ++ e2 ++ e3 ++ e4 with
      | [] => (result, None)
      | errors => (result, Some (mapstructure_Error errors))
      end
  | data => (output, Some (mapstructure_ExpectedMap "" data))
  end.

End mapstructure.

(** ** The package *)

(** Indexing [s[index]] with an [int] index. *)
Definition slice_at {A : Type} (s : list A) (index : Z) : result A :=
  if index <? 0 then Panics (IndexOutOfRange index (length s))
  else
    match s !! Z.to_nat index with
    | Some a => Ok a
    | None => Panics (IndexOutOfRange index (length s))
    end.

Module jsonschema.

(** [Attributes] is a list of [Attribute] entities. *)
Definition Attributes : Type := list Attribute.

(** [JSONSchema] holds the decoded schema document. *)
Record JSONSchema : Type := mkJSONSchema {
  content : list (string * any)
}.

(** Modelled from the spec: the struct [domain.CredentialAttributes] is
    declared in another package.  The code reads [Name] and writes
    [Value]; whatever other fields the struct has are carried in
    [fields], of a type the development is parametric in. *)
Record CredentialAttributes (F : Type) : Type := mkCredentialAttributes {
  Name : string;
  Value : any;
  fields : F
}.

Arguments mkCredentialAttributes {F} Name Value fields.
Arguments Name {F} c.
Arguments Value {F} c.
Arguments fields {F} c.

(** The assignment [c.Value = v]. *)
Definition set_Value {F : Type} (v : any) (c : CredentialAttributes F)
  : CredentialAttributes F :=
  mkCredentialAttributes (Name c) v (fields c).

(** The zero value [Attribute{}]. *)
Definition zero_Attribute : Attribute := mkAttribute "" "" "" "".

(** The assignment [attr.ID = id]. *)
Definition set_ID (id : string) (attr : Attribute) : Attribute :=
  mkAttribute id (Title attr) (Type_ attr) (Format attr).

(** The [range] loop of [AttributeNames] over the entries of [props] still
    to visit, [attrs] being the slice built so far. *)
Fixpoint AttributeNames_range (props : list (string * any)) (attrs : Attributes)
  : result Attributes :=
  match props with
  | [] => Ok attrs
  | (id, prop) :: rest =>
      let attr := zero_Attribute in
      match mapstructure.Decode prop attr with
      | (_, Some err) => Err (fmt_Errorf "parsing attribute <%s>: %w" prop err)
      | (attr, None) =>
          let attr := set_ID id attr in
          AttributeNames_range rest (attrs ++ [attr])
      end
  end.

(** [AttributeNames] returns a list with the attributes in
    [properties.credentialSubject.properties]. *)
Definition AttributeNames (s : JSONSchema) : result Attributes :=
  match assert_map (map_index (content s) "properties") with
  | None => Err (errors_New "missing properties field")
  | Some props =>
      match assert_map (map_index props "credentialSubject") with
      | None => Err (errors_New "missing properties.credentialSubject field")
      | Some credSubject =>
          match assert_map (map_index credSubject "properties") with
          | None => Err (errors_New "missing properties.credentialSubject.properties field")
          | Some props => AttributeNames_range props []
          end
      end
  end.

(** [fmt.Sprintf("%s(%s)", a.Title, a.ID)] when the title is not empty,
    else the id. *)
Definition String (a : Attribute) : string :=
  if decide (Title a ≠ "") then Title a +:+ "(" +:+ ID a +:+ ")"
  else ID a.

(** [SchemaAttrs] converts [Attributes] into [domain.SchemaAttrs], a slice
    of strings: the slice is made with the length of [a] and its element
    [i] is assigned for each [i, attr] of the [range]. *)
Definition SchemaAttrs (a : Attributes) : list string :=
  foldl (λ out '(i, attr), <[i := String attr]> out)
        (replicate (length a) "") (imap pair a).

(** [JSONLdContext] returns the value of [$metadata.uris.jsonLdContext]. *)
Definition JSONLdContext (s : JSONSchema) : result string :=
  match assert_map (map_index (content s) "$metadata") with
  | None => Err (errors_New "missing $metadata field")
  | Some metadata =>
      match assert_map (map_index metadata "uris") with
      | None => Err (errors_New "missing $metadata.uris field")
      | Some uris =>
          match assert_string (map_index uris "jsonLdContext") with
          | None => Err (errors_New "missing $metadata.uris.jsonLdContext field")
          | Some jsonLdContext => Ok jsonLdContext
          end
      end
  end.

Section SchemaHash.

(** [core.SchemaHash] and [utils.CreateSchemaHash] are declared in other
    modules: the hash type and the hash function are parameters. *)
Context {Hash : Type} (CreateSchemaHash : list Z → Hash).

(** [SchemaHash] calculates the hash of a schemaType. *)
Definition SchemaHash (s : JSONSchema) (schemaType : string) : result Hash :=
  match JSONLdContext s with
  | Panics p => Panics p
  | Err err => Err err
  | Ok jsonLdContext =>
      let id := jsonLdContext +:+ "#" +:+ schemaType in
      Ok (CreateSchemaHash (bytes id))
  end.

End SchemaHash.

Fixpoint findIndex_from (attributes : Attributes) (name : string) (i : Z) : Z :=
  match attributes with
  | [] => -1
  | attribute :: rest =>
      if decide (ID attribute = name) then i else findIndex_from rest name (i + 1)
  end.

Definition findIndexForSchemaAttribute (attributes : Attributes) (name : string) : Z :=
  findIndex_from attributes name 0.

Definition validateCredentialLinkAttribute
    (schemaAttribute : Attribute) (attributeLinkName : string) (attributeLinkValue : any)
  : result any :=
  if decide (Type_ schemaAttribute = "string") then
    match assert_string attributeLinkValue with
    | None =>
        Err (newCredentialLinkAttributeError
               ("error converting the attribute: " +:+ attributeLinkName))
    | Some s => Ok (Str s)
    end
  else if decide (Type_ schemaAttribute = "integer") then
    match assert_string attributeLinkValue with
    | None =>
        Err (newCredentialLinkAttributeError
               ("error converting the attribute: " +:+ attributeLinkName))
    | Some s =>
        match strconv.Atoi s with
        | (_, Some _) =>
            Err (newCredentialLinkAttributeError
                   ("error converting the attribute: " +:+ attributeLinkName
                    +:+ ". Must be an integer"))
        | (newValue, None) => Ok (Int newValue)
        end
    end
  else if decide (Type_ schemaAttribute = "boolean") then
    match assert_string attributeLinkValue with
    | None =>
        Err (newCredentialLinkAttributeError
               ("error converting the attribute: " +:+ attributeLinkName))
    | Some s =>
        match strconv.ParseBool s with
        | (_, Some _) =>
            Err (newCredentialLinkAttributeError
                   ("error converting the attribute: " +:+ attributeLinkName
                    +:+ ". Must be a boolean"))
        | (newValue, None) => Ok (Bool newValue)
        end
    end
  else
    Err (newCredentialLinkAttributeError
           ("error converting the attribute: " +:+ attributeLinkName
            +:+ ". type not supported")).

(** [append(s[:index], s[index+1:]...)].  The two slice expressions are
    evaluated in this order and each is bounds-checked: [s[:index]] needs
    [0 <= index <= cap(s)], [s[index+1:]] needs [index+1 <= len(s)].  When
    both hold, the elements after [index] are moved one place down in the
    backing array of [s], which has room for them.

    The list holds the elements of the slice and not its capacity, which
    only the panic of [s[:index]] at an index beyond the length depends on:
    there the slice is taken to be filled to its capacity, as the slice
    that [AttributeNames] returns is. *)
Definition removeIndex (s : list Attribute) (index : Z) : result (list Attribute) :=
  let capacity := length s in
  if (index <? 0) || (Z.of_nat capacity <? index) then
    Panics (SliceBoundsOutOfRangeAcap index capacity)
  else if Z.of_nat (length s) <? index + 1 then
    Panics (SliceBoundsOutOfRangeB (index + 1) (length s))
  else Ok (take (Z.to_nat index) s ++ drop (Z.to_nat (index + 1)) s).

Section ValidateAndConvert.

Context {F : Type}.

(** How the [range] loop of [ValidateAndConvert] ends: it runs to its end
    with the descriptors left over, or is left early by the [return] of
    an error, or by a panic. *)
Inductive loop_end : Type :=
| Completed (schemaAttributes : Attributes)
| Returned (err : error)
| Panicked (p : panic).

(** The [range] loop of [ValidateAndConvert] with [n] elements still to
    visit, the next one at index [i].  [credentialAttributes] is the
    content of the caller's slice, which the loop updates in place: the
    function gives its content when the loop ends. *)
Fixpoint ValidateAndConvert_range (n i : nat)
    (credentialAttributes : list (CredentialAttributes F))
    (schemaAttributes : Attributes)
  : list (CredentialAttributes F) * loop_end :=
  match n with
  | O => (credentialAttributes, Completed schemaAttributes)
  | S n' =>
      match credentialAttributes !! i with
      | None =>
          (credentialAttributes,
           Panicked (IndexOutOfRange (Z.of_nat i) (length credentialAttributes)))
      | Some attributeLink =>
          let attributeLinkName := Name attributeLink in
          let attributeLinkValue := Value attributeLink in
          let index := findIndexForSchemaAttribute schemaAttributes attributeLinkName in
          match slice_at schemaAttributes index with
          | Panics p => (credentialAttributes, Panicked p)
          | Err err => (credentialAttributes, Returned err)
          | Ok schemaAttribute =>
              match validateCredentialLinkAttribute
                      schemaAttribute attributeLinkName attributeLinkValue with
              | Panics p => (credentialAttributes, Panicked p)
              | Err err => (credentialAttributes, Returned err)
              | Ok attributeLinkValueConverted =>
                  let credentialAttributes :=
                    alter (set_Value attributeLinkValueConverted) i credentialAttributes in
                  match removeIndex schemaAttributes index with
                  | Panics p => (credentialAttributes, Panicked p)
                  | Err err => (credentialAttributes, Returned err)
                  | Ok schemaAttributes =>
                      ValidateAndConvert_range n' (S i) credentialAttributes schemaAttributes
                  end
              end
          end
      end
  end.

(** [ValidateAndConvert] validates an array of attributes against the
    schema.  The first component is the content of the caller's slice
    after the call; the second is what the call returns: on success the
    caller's slice itself. *)
Definition ValidateAndConvert (s : JSONSchema)
    (credentialAttributes : list (CredentialAttributes F))
  : list (CredentialAttributes F) * result (list (CredentialAttributes F)) :=
  match AttributeNames s with
  | Panics p => (credentialAttributes, Panics p)
  | Err _ => (credentialAttributes, Err ErrProcessSchema)
  | Ok schemaAttributes =>
      match ValidateAndConvert_range (length credentialAttributes) 0
              credentialAttributes schemaAttributes with
      | (credentialAttributes, Panicked p) => (credentialAttributes, Panics p)
      | (credentialAttributes, Returned err) => (credentialAttributes, Err err)
      | (credentialAttributes, Completed schemaAttributes) =>
          if decide (length schemaAttributes ≠ 1%nat) then
            (credentialAttributes,
             Err (newCredentialLinkAttributeError "the number of attributes is not valid"))
          else (credentialAttributes, Ok credentialAttributes)
      end
  end.

End ValidateAndConvert.

End jsonschema.

(** ** Notions of the specification *)

(** A decimal digit, as a byte. *)
Definition is_digit (c : Z) : bool := (48 <=? c) && (c <=? 57).

(** The number written by a sequence of decimal digits, after [acc]. *)
Fixpoint digits_value (acc : Z) (s : list Z) : Z :=
  match s with
  | [] => acc
  | c :: rest => digits_value (acc * 10 + (c - 48)) rest
  end.

(** One or more decimal digits. *)
Definition unsigned_literal (s : list Z) : option Z :=
  match s with
  | [] => None
  | _ => if forallb is_digit s then Some (digits_value 0 s) else None
  end.

(** A base-10 integer literal: an optional sign and one or more decimal
    digits; the integer it denotes. *)
Definition signed_literal (s : list Z) : option Z :=
  match s with
  | [] => None
  | c :: tl =>
      if c =? 43 then unsigned_literal tl
      else if c =? 45 then Z.opp <$> unsigned_literal tl
      else unsigned_literal (c :: tl)
  end.

Definition base10_literal (s : string) : option Z := signed_literal (bytes s).

(** The values of a 64-bit [int]. *)
Definition int_range (n : Z) : Prop := - 2 ^ 63 <= n <= 2 ^ 63 - 1.

(** The boolean literals: the spellings of true and of false. *)
Definition boolean_literal (s : string) : option bool :=
  if decide (s ∈ ["1"; "t"; "T"; "TRUE"; "true"; "True"]) then Some true
  else if decide (s ∈ ["0"; "f"; "F"; "FALSE"; "false"; "False"]) then Some false
  else None.

(** The error kinds of the specification, as the values the code builds. *)
Definition SchemaStructureError (path : string) : error :=
  errors_New ("missing " +:+ path +:+ " field").

Definition TypeMismatchError (name : string) : error :=
  newCredentialLinkAttributeError ("error converting the attribute: " +:+ name).

Definition ParseError (name expected : string) : error :=
  newCredentialLinkAttributeError
    ("error converting the attribute: " +:+ name +:+ ". Must be " +:+ expected).

Definition UnsupportedTypeError (name : string) : error :=
  newCredentialLinkAttributeError
    ("error converting the attribute: " +:+ name +:+ ". type not supported").

Definition CountMismatchError : error :=
  newCredentialLinkAttributeError "the number of attributes is not valid".

(** A key of a mapping that is missing or bound to something that is not a
    mapping. *)
Definition not_a_mapping (m : list (string * any)) (key : string) : Prop :=
  ∀ m', map_lookup m key ≠ Some (Map m').

(** A sub-mapping that [mapstructure] decodes into an [Attribute]. *)
Definition decodable (prop : any) : Prop :=
  (mapstructure.Decode prop jsonschema.zero_Attribute).2 = None.

(** The smallest document with [props] at
    [properties.credentialSubject.properties]. *)
Definition schema_with (props : list (string * any)) : jsonschema.JSONSchema :=
  jsonschema.mkJSONSchema
    [("properties", Map [("credentialSubject", Map [("properties", Map props)])])].

(** The mapping found at [properties.credentialSubject.properties] of a
    document whose three levels are mappings. *)
Definition at_path (s : jsonschema.JSONSchema) (props : list (string * any)) : Prop :=
  ∃ p1 p2,
    map_lookup (jsonschema.content s) "properties" = Some (Map p1)
    ∧ map_lookup p1 "credentialSubject" = Some (Map p2)
    ∧ map_lookup p2 "properties" = Some (Map props).

(** The descriptor a supplied name is matched to: the first one with that
    id among the descriptors not yet matched. *)
Definition matched (attrs : list Attribute) (name : string) (a : Attribute) : Prop :=
  ∃ k, list_find (λ a, ID a = name) attrs = Some (k, a).

(** The reading of the integer conversion under which every string holding
    a base-10 integer literal is converted. *)
Definition converts_every_integer_literal
    (a : Attribute) (name : string) (v : any) : Prop :=
  (∃ n, jsonschema.validateCredentialLinkAttribute a name v = Ok (Int n))
  ↔ (∃ s n, v = Str s ∧ base10_literal s = Some n).

(** ** Sample inputs *)

(** The descriptors of the round trip of the specification: an integer
    [age], a string [name] and the reserved string [id]. *)
Definition sample_schema : jsonschema.JSONSchema :=
  schema_with [("age", Map [("type", Str "integer")]);
               ("name", Map [("type", Str "string")]);
               ("id", Map [("type", Str "string")])].

(** A credential attribute with no other field. *)
Definition attribute (name : string) (value : any) : jsonschema.CredentialAttributes () :=
  jsonschema.mkCredentialAttributes name value ().

(** * Facts about [strconv] *)

Section strconv_facts.

Import strconv.

Lemma wrap_int_small z : - 2 ^ 63 <= z < 2 ^ 63 → wrap_int z = z.
Proof. intros H. unfold wrap_int. rewrite Z.mod_small; lia. Qed.

Lemma wrap_uint64_small z : 0 <= z < 2 ^ 64 → wrap_uint64 z = z.
Proof. intros H. unfold wrap_uint64. by rewrite Z.mod_small. Qed.

Lemma byte_of_range c : 0 <= byte_of c < 256.
Proof.
  unfold byte_of.
  pose proof (Ascii.N_ascii_bounded c) as H. lia.
Qed.

Lemma bytes_range s : Forall (λ c, 0 <= c < 256) (bytes s).
Proof. induction s; constructor; auto using byte_of_range. Qed.

Lemma bytes_length s : length (bytes s) = String.length s.
Proof. induction s; simpl; congruence. Qed.

Lemma digits_value_ge s : ∀ acc,
  forallb is_digit s = true → 0 <= acc → acc <= digits_value acc s.
Proof.
  induction s as [|c s IH]; intros acc Hd Hacc; simpl in *; [lia|].
  apply andb_prop in Hd as [Hc Hs]. unfold is_digit in Hc.
  specialize (IH (acc * 10 + (c - 48)) Hs). lia.
Qed.

Lemma digits_value_mono s : ∀ a b,
  a <= b → digits_value a s <= digits_value b s.
Proof.
  induction s as [|c s IH]; intros a b Hab; simpl; [done|].
  apply IH. lia.
Qed.

(** The fast path of [Atoi]: with fewer than 19 bytes the accumulator never
    leaves the range of [int]. *)
Lemma Atoi_loop_spec s : ∀ (k : nat) n,
  Forall (λ c, 0 <= c < 256) s →
  0 <= n < 10 ^ Z.of_nat k →
  (k + length s ≤ 18)%nat →
  Atoi_loop s n =
    if forallb is_digit s then Some (digits_value n s) else None.
Proof.
  induction s as [|c s IH]; intros k n Hb Hn Hk; simpl; [done|].
  inversion Hb as [|? ? Hc Hs]; subst.
  unfold wrap_byte, is_digit.
  destruct (Z.leb_spec 48 c) as [H48|H48]; simpl.
  - rewrite (Z.mod_small (c - 48)) by lia.
    destruct (Z.leb_spec c 57) as [H57|H57]; simpl.
    + destruct (Z.ltb_spec 9 (c - 48)); [lia|].
      assert (Hpow : 10 ^ Z.of_nat (S k) = 10 * 10 ^ Z.of_nat k).
      { rewrite Nat2Z.inj_succ, Z.pow_succ_r by lia. done. }
      assert (Hle : 10 ^ Z.of_nat (S k) <= 10 ^ 18).
      { apply Z.pow_le_mono_r; simpl in Hk; lia. }
      rewrite wrap_int_small by (change (10 ^ 18) with 1000000000000000000 in Hle; lia).
      apply (IH (S k)); [done| |simpl in Hk; lia].
      lia.
    + destruct (Z.ltb_spec 9 (c - 48)); [done|lia].
  - replace ((c - 48) mod 2 ^ 8) with (c - 48 + 256).
    + destruct (Z.ltb_spec 9 (c - 48 + 256)); [done|lia].
    + symmetry. rewrite <- (Z.mod_small (c - 48 + 256) (2 ^ 8)) by lia.
      change (2 ^ 8) with 256.
      rewrite <- (Z_mod_plus_full (c - 48) 1 256). f_equal; lia.
Qed.

Lemma digits_value_bound s : ∀ (k : nat) n,
  forallb is_digit s = true →
  0 <= n < 10 ^ Z.of_nat k →
  0 <= digits_value n s < 10 ^ Z.of_nat (k + length s).
Proof.
  induction s as [|c s IH]; intros k n Hd Hn; simpl in *.
  - by rewrite Nat.add_0_r.
  - apply andb_prop in Hd as [Hc Hs]. unfold is_digit in Hc.
    replace (k + S (length s))%nat with (S k + length s)%nat by lia.
    apply IH; [done|].
    rewrite Nat2Z.inj_succ, Z.pow_succ_r by lia. lia.
Qed.

(** The loop of [ParseUint]: what each of its three outcomes says about the
    input. *)
Lemma ParseUint_loop_spec s : ∀ n,
  0 <= n <= maxUint64 →
  match ParseUint_loop s n with
  | (v, None) =>
      forallb is_digit s = true ∧ v = digits_value n s ∧ 0 <= v <= maxUint64
  | (v, Some ErrSyntax) => v = 0 ∧ forallb is_digit s = false
  | (v, Some ErrRange) =>
      v = maxUint64 ∧
      (forallb is_digit s = false ∨ maxUint64 < digits_value n s)
  end.
Proof.
  unfold maxUint64.
  induction s as [|c s IH]; intros n Hn; simpl; [by auto|].
  unfold is_digit at 1 3 5.
  destruct ((48 <=? c) && (c <=? 57)) eqn:Hdig; simpl.
  - apply andb_prop in Hdig as [H48 H57].
    destruct (Z.leb_spec 10 (c - 48)); [lia|].
    change (maxUint64 / 10 + 1) with 1844674407370955162.
    change (wrap_uint64 (wrap_uint64 (Z.shiftl 1 64) - 1)) with 18446744073709551615.
    change (2 ^ 64 - 1) with 18446744073709551615 in *.
    destruct (Z.leb_spec 1844674407370955162 n) as [Hcut|Hcut].
    + split; [done|].
      destruct (forallb is_digit s) eqn:Hs; [right|by left].
      pose proof (digits_value_ge s (n * 10 + (c - 48)) Hs). lia.
    + rewrite (wrap_uint64_small (n * 10)) by lia.
      unfold wrap_uint64. change (2 ^ 64) with 18446744073709551616.
      destruct (Z.le_gt_cases 18446744073709551616 (n * 10 + (c - 48))) as [Hov|Hok].
      * replace ((n * 10 + (c - 48)) mod 18446744073709551616)
          with (n * 10 + (c - 48) - 18446744073709551616).
        2:{ symmetry.
            rewrite <- (Z.mod_small (n * 10 + (c - 48) - 18446744073709551616)
                          18446744073709551616) by lia.
            rewrite <- (Z_mod_plus_full (n * 10 + (c - 48) - 18446744073709551616) 1
                          18446744073709551616). f_equal; lia. }
        destruct (Z.ltb_spec (n * 10 + (c - 48) - 18446744073709551616) (n * 10));
          [simpl|lia].
        split; [done|].
        destruct (forallb is_digit s) eqn:Hs; [right|by left].
        pose proof (digits_value_ge s (n * 10 + (c - 48)) Hs). lia.
      * rewrite Z.mod_small by lia.
        destruct (Z.ltb_spec (n * 10 + (c - 48)) (n * 10)); [lia|].
        destruct (Z.ltb_spec 18446744073709551615 (n * 10 + (c - 48))); [lia|]. simpl.
        specialize (IH (n * 10 + (c - 48))).
        destruct (ParseUint_loop s (n * 10 + (c - 48))) as [v [[]|]];
          apply IH; lia.
  - destruct ((97 <=? lower c) && (lower c <=? 122)) eqn:Hlet; [|done].
    apply andb_prop in Hlet as [H97 _].
    destruct (Z.leb_spec 10 (lower c - 97 + 10)); [done|lia].
Qed.

Lemma ParseUint_spec s :
  match ParseUint s with
  | (v, None) => unsigned_literal s = Some v ∧ 0 <= v <= maxUint64
  | (v, Some ErrSyntax) => unsigned_literal s = None
  | (v, Some ErrRange) =>
      v = maxUint64 ∧ ∀ w, unsigned_literal s = Some w → maxUint64 < w
  end.
Proof.
  destruct s as [|c s]; [done|].
  unfold ParseUint, unsigned_literal.
  pose proof (ParseUint_loop_spec (c :: s) 0) as H.
  destruct (ParseUint_loop (c :: s) 0) as [v [[]|]].
  - destruct H as [_ ->]; [by unfold maxUint64|done].
  - destruct H as [-> H]; [by unfold maxUint64|]. split; [done|].
    intros w. destruct H as [-> | H]; [done|].
    destruct (forallb is_digit (c :: s)); [|done]. by intros [= <-].
  - destruct H as (-> & -> & H); [by unfold maxUint64|done].
Qed.

(** [ParseInt] returns without error exactly on the literals that denote a
    value of [int]. *)
Lemma ParseInt_ok s n :
  ParseInt s = (n, None) ↔ signed_literal s = Some n ∧ int_range n.
Proof.
  unfold int_range, ParseInt, signed_literal.
  destruct s as [|s0 tl]; [by intuition|].
  change (Z.shiftl 1 (intSize - 1)) with 9223372036854775808.
  change (2 ^ 63) with 9223372036854775808.
  destruct (Z.eqb_spec s0 43) as [Hp|Hp].
  { destruct (Z.eqb_spec s0 45); [lia|]. simpl negb. simpl andb.
    pose proof (ParseUint_spec tl) as H. unfold maxUint64 in H.
    change (2 ^ 64 - 1) with 18446744073709551615 in H.
    destruct (ParseUint tl) as [un [[]|]].
    - rewrite H. by intuition.
    - destruct H as [-> H]. simpl. split; [done|].
      intros [Hw ?]. apply H in Hw. lia.
    - destruct H as [-> H]. destruct (Z.leb_spec 9223372036854775808 un).
      + split; [done|]. intros [[= ->] ?]. lia.
      + rewrite wrap_int_small by (change (2 ^ 63) with 9223372036854775808; lia).
        split; [intros [= <-]; split; [done|lia] | by intros [[= ->] _]]. }
  destruct (Z.eqb_spec s0 45) as [Hm|Hm].
  { simpl negb. simpl andb.
    pose proof (ParseUint_spec tl) as H. unfold maxUint64 in H.
    change (2 ^ 64 - 1) with 18446744073709551615 in H.
    destruct (ParseUint tl) as [un [[]|]].
    - rewrite H. by intuition.
    - destruct H as [-> H]. simpl. split; [done|].
      intros [Hw ?]. destruct (unsigned_literal tl) as [w|]; [|done].
      specialize (H w eq_refl). simpl in Hw. injection Hw as <-. lia.
    - destruct H as [-> H]. simpl.
      destruct (Z.ltb_spec 9223372036854775808 un).
      + split; [done|]. intros [[= <-] ?]. lia.
      + destruct (Z.eq_dec un 9223372036854775808) as [->|Hne].
        * split; [by intros [= <-]|by intros [[= <-] _]].
        * rewrite (wrap_int_small un)
            by (change (2 ^ 63) with 9223372036854775808; lia).
          rewrite wrap_int_small by (change (2 ^ 63) with 9223372036854775808; lia).
          split; [intros [= <-]; split; [done|lia] | by intros [[= <-] _]]. }
  simpl negb. simpl andb.
  pose proof (ParseUint_spec (s0 :: tl)) as H. unfold maxUint64 in H.
  change (2 ^ 64 - 1) with 18446744073709551615 in H.
  destruct (ParseUint (s0 :: tl)) as [un [[]|]].
  - rewrite H. by intuition.
  - destruct H as [-> H]. simpl. split; [done|].
    intros [Hw ?]. apply H in Hw. lia.
  - destruct H as [-> H]. destruct (Z.leb_spec 9223372036854775808 un).
    + split; [done|]. intros [[= ->] ?]. lia.
    + rewrite wrap_int_small by (change (2 ^ 63) with 9223372036854775808; lia).
      split; [intros [= <-]; split; [done|lia] | by intros [[= ->] _]].
Qed.

Lemma Atoi_loop_literal s :
  s ≠ [] → (length s ≤ 18)%nat → Forall (λ c, 0 <= c < 256) s →
  match Atoi_loop s 0 with
  | Some n => unsigned_literal s = Some n ∧ 0 <= n < 10 ^ 18
  | None => unsigned_literal s = None
  end.
Proof.
  intros Hne Hlen Hb.
  rewrite (Atoi_loop_spec s 0 0) by (done || simpl; lia).
  unfold unsigned_literal. destruct s as [|c s]; [done|].
  destruct (forallb is_digit (c :: s)) eqn:Hd; [|done].
  split; [done|].
  pose proof (digits_value_bound (c :: s) 0 0 Hd) as H.
  assert (10 ^ Z.of_nat (0 + length (c :: s)) <= 10 ^ 18)
    by (apply Z.pow_le_mono_r; lia).
  simpl Z.of_nat in H at 1. lia.
Qed.

(** [Atoi] returns without error exactly on the base-10 integer literals
    that denote a value of [int], and then returns that value. *)
Lemma Atoi_ok s n :
  Atoi s = (n, None) ↔ base10_literal s = Some n ∧ int_range n.
Proof.
  unfold Atoi, base10_literal.
  pose proof (bytes_length s) as Hlen. pose proof (bytes_range s) as Hb.
  destruct ((0 <? Z.of_nat (String.length s)) && (Z.of_nat (String.length s) <? 19))
    eqn:Hfast; [|apply ParseInt_ok].
  apply andb_prop in Hfast as [H0 H19].
  apply Z.ltb_lt in H0, H19. rewrite <- Hlen in H0, H19.
  destruct (bytes s) as [|s0 tl]; [simpl in H0; lia|].
  simpl in H19. inversion Hb as [|? ? Hs0 Htl]; subst.
  unfold signed_literal, int_range. change (2 ^ 63) with 9223372036854775808.
  assert (Hw : ∀ m, 0 <= m < 10 ^ 18 → wrap_int (- m) = - m).
  { intros m Hm. change (10 ^ 18) with 1000000000000000000 in Hm.
    apply wrap_int_small. change (2 ^ 63) with 9223372036854775808. lia. }
  change (10 ^ 18) with 1000000000000000000 in Hw.
  destruct (Z.eqb_spec s0 45) as [->|H45]; simpl orb.
  - change (45 =? 43) with false. cbv iota. simpl andb.
    destruct tl as [|c tl]; [by intuition|].
    destruct (Z.ltb_spec (Z.of_nat (length (c :: tl))) 1) as [Hl|_];
      [simpl in Hl; lia|].
    pose proof (Atoi_loop_literal (c :: tl) ltac:(done) ltac:(simpl in *; lia) Htl) as H.
    change (10 ^ 18) with 1000000000000000000 in H.
    destruct (Atoi_loop (c :: tl) 0) as [m|].
    + destruct H as [-> Hm]. simpl. rewrite Hw by done.
      split; [intros [= <-]; split; [done|lia] | by intros [[= <-] _]].
    + rewrite H. simpl. by intuition.
  - destruct (Z.eqb_spec s0 43) as [->|H43]; simpl andb.
    + destruct tl as [|c tl]; [by intuition|].
      destruct (Z.ltb_spec (Z.of_nat (length (c :: tl))) 1) as [Hl|_];
        [simpl in Hl; lia|].
      pose proof (Atoi_loop_literal (c :: tl) ltac:(done) ltac:(simpl in *; lia) Htl) as H.
      change (10 ^ 18) with 1000000000000000000 in H.
      destruct (Atoi_loop (c :: tl) 0) as [m|].
      * destruct H as [-> Hm].
        split; [intros [= <-]; split; [done|lia] | by intros [[= <-] _]].
      * rewrite H. by intuition.
    + pose proof (Atoi_loop_literal (s0 :: tl) ltac:(done) ltac:(simpl in *; lia) Hb) as H.
      change (10 ^ 18) with 1000000000000000000 in H.
      destruct (Atoi_loop (s0 :: tl) 0) as [m|].
      * destruct H as [-> Hm].
        split; [intros [= <-]; split; [done|lia] | by intros [[= <-] _]].
      * rewrite H. by intuition.
Qed.

(** [Atoi] is total: when it does not return a value it returns an
    error. *)
Lemma Atoi_error s :
  (∀ n, ¬ (base10_literal s = Some n ∧ int_range n)) → ∃ v e, Atoi s = (v, Some e).
Proof.
  intros H. destruct (Atoi s) as [v [e|]] eqn:E; [by eauto|].
  apply Atoi_ok in E. by destruct (H v).
Qed.

(** [ParseBool] accepts exactly the boolean literals. *)
Lemma ParseBool_ok s b :
  ParseBool s = (b, None) ↔ boolean_literal s = Some b.
Proof.
  unfold boolean_literal.
  destruct (decide (s ∈ ["1"; "t"; "T"; "TRUE"; "true"; "True"])) as [Ht|Ht].
  { repeat (apply elem_of_cons in Ht as [->|Ht]); [..|by apply elem_of_nil in Ht];
      simpl; split; congruence. }
  destruct (decide (s ∈ ["0"; "f"; "F"; "FALSE"; "false"; "False"])) as [Hf|Hf].
  { repeat (apply elem_of_cons in Hf as [->|Hf]); [..|by apply elem_of_nil in Hf];
      simpl; split; congruence. }
  split; [|done]. intros H. exfalso.
  unfold ParseBool in H.
  repeat (match type of H with
          | context [match ?x with _ => _ end] => destruct x; try discriminate H
          end);
    first [ by (apply Ht; repeat first [apply list_elem_of_here | apply list_elem_of_further])
          | by (apply Hf; repeat first [apply list_elem_of_here | apply list_elem_of_further]) ].
Qed.

Lemma ParseBool_error s :
  boolean_literal s = None → ∃ v e, ParseBool s = (v, Some e).
Proof.
  intros H. destruct (ParseBool s) as [v [e|]] eqn:E; [by eauto|].
  apply ParseBool_ok in E. congruence.
Qed.


End strconv_facts.

(** * Facts about the package *)

Section jsonschema_facts.

Import jsonschema.

Context {F : Type}.
Implicit Types (cs : list (CredentialAttributes F)) (attrs : list Attribute).

(** ** Looking a descriptor up and removing it *)

Lemma findIndex_from_spec attrs name : ∀ i,
  findIndex_from attrs name i =
    match list_find (λ a, ID a = name) attrs with
    | Some (k, _) => i + Z.of_nat k
    | None => -1
    end.
Proof.
  induction attrs as [|a attrs IH]; intros i; simpl; [done|].
  destruct (decide (ID a = name)); simpl; [lia|].
  rewrite IH. destruct (list_find _ attrs) as [[k ?]|]; simpl; lia.
Qed.

Lemma findIndex_found attrs name k a :
  list_find (λ a, ID a = name) attrs = Some (k, a) →
  findIndexForSchemaAttribute attrs name = Z.of_nat k
  ∧ slice_at attrs (Z.of_nat k) = Ok a
  ∧ removeIndex attrs (Z.of_nat k) = Ok (delete k attrs).
Proof.
  intros Hfind. unfold findIndexForSchemaAttribute.
  rewrite findIndex_from_spec, Hfind.
  apply list_find_Some in Hfind as (Hk & _ & _).
  pose proof (lookup_lt_Some _ _ _ Hk) as Hlt.
  split; [lia|]. split.
  - unfold slice_at. destruct (Z.ltb_spec (Z.of_nat k) 0); [lia|].
    by rewrite Nat2Z.id, Hk.
  - unfold removeIndex. rewrite delete_take_drop. cbv zeta.
    destruct (Z.ltb_spec (Z.of_nat k) 0); [lia|].
    destruct (Z.ltb_spec (Z.of_nat (length attrs)) (Z.of_nat k)); [lia|].
    destruct (Z.ltb_spec (Z.of_nat (length attrs)) (Z.of_nat k + 1)); [lia|].
    simpl orb. cbv iota.
    rewrite Nat2Z.id. by replace (Z.to_nat (Z.of_nat k + 1)) with (S k) by lia.
Qed.

Lemma findIndex_not_found attrs name :
  list_find (λ a, ID a = name) attrs = None →
  findIndexForSchemaAttribute attrs name = -1
  ∧ slice_at attrs (-1) = @Panics Attribute (IndexOutOfRange (-1) (length attrs)).
Proof.
  intros Hfind. unfold findIndexForSchemaAttribute.
  by rewrite findIndex_from_spec, Hfind.
Qed.

Lemma list_find_None_ID attrs name :
  list_find (λ a, ID a = name) attrs = None ↔ name ∉ ID <$> attrs.
Proof.
  rewrite list_find_None, Forall_forall, list_elem_of_fmap. split.
  - intros H (a & -> & Ha). by apply (H a).
  - intros H a Ha Heq. apply H. by exists a.
Qed.

(** ** One turn of the loop of [ValidateAndConvert] *)

(** The four ways a turn of the loop goes: the attribute is converted and
    its descriptor removed, or the turn ends the call. *)
Lemma range_turn n i cs attrs cs' e :
  ValidateAndConvert_range (S n) i cs attrs = (cs', e) →
  (∃ c k a v,
      cs !! i = Some c
      ∧ list_find (λ a, ID a = Name c) attrs = Some (k, a)
      ∧ validateCredentialLinkAttribute a (Name c) (Value c) = Ok v
      ∧ ValidateAndConvert_range n (S i) (alter (set_Value v) i cs) (delete k attrs)
        = (cs', e))
  ∨ (cs' = cs ∧
     ((cs !! i = None ∧ e = Panicked (IndexOutOfRange (Z.of_nat i) (length cs)))
      ∨ (∃ c, cs !! i = Some c
              ∧ list_find (λ a, ID a = Name c) attrs = None
              ∧ e = Panicked (IndexOutOfRange (-1) (length attrs)))
      ∨ (∃ c k a err,
            cs !! i = Some c
            ∧ list_find (λ a, ID a = Name c) attrs = Some (k, a)
            ∧ validateCredentialLinkAttribute a (Name c) (Value c) = Err err
            ∧ e = Returned err))).
Proof.
  simpl. destruct (cs !! i) as [c|] eqn:Hc.
  2:{ intros [= <- <-]. right. by auto. }
  destruct (list_find (λ a, ID a = Name c) attrs) as [[k a]|] eqn:Hfind.
  - destruct (findIndex_found _ _ _ _ Hfind) as (-> & -> & ->).
    destruct (validateCredentialLinkAttribute a (Name c) (Value c)) as [v|err|p] eqn:Hv.
    + intros H. left. by exists c, k, a, v.
    + intros [= <- <-]. right. split; [done|]. right. right. by exists c, k, a, err.
    + exfalso. unfold validateCredentialLinkAttribute in Hv.
      repeat (case_decide || case_match); discriminate.
  - destruct (findIndex_not_found _ _ Hfind) as (-> & ->).
    intros [= <- <-]. right. split; [done|]. right. left. by exists c.
Qed.

Lemma range_fails_at m i cs attrs cs' e :
  ValidateAndConvert_range 1 i cs attrs = (cs', e) →
  (∀ rest, e ≠ Completed rest) →
  ValidateAndConvert_range (S m) i cs attrs = (cs', e).
Proof.
  simpl. intros H Hne.
  repeat case_match; try done.
  injection H as <- <-. exfalso. by eapply Hne.
Qed.

(** Running [n + m] turns is running [n] turns and then, unless the call
    has ended, [m] more. *)
Lemma range_add n m : ∀ i cs attrs,
  ValidateAndConvert_range (n + m) i cs attrs =
    match ValidateAndConvert_range n i cs attrs with
    | (cs1, Completed rest) => ValidateAndConvert_range m (i + n) cs1 rest
    | r => r
    end.
Proof.
  induction n as [|n IH]; intros i cs attrs.
  - simpl. by rewrite Nat.add_0_r.
  - simpl. repeat case_match; try done; rewrite IH;
      match goal with
      | H : ValidateAndConvert_range _ _ _ _ = _ |- _ => rewrite H
      end;
      by rewrite ?Nat.add_succ_r.
Qed.

(** ** What the loop keeps and what it changes *)

Lemma fmap_alter_id {A B} (g : A → B) (f : A → A) (l : list A) i :
  (∀ x, g (f x) = g x) → g <$> alter f i l = g <$> l.
Proof.
  intros Hg. revert i. induction l as [|x l IH]; intros [|i]; simpl; [done..| |].
  - by rewrite Hg.
  - f_equal. apply IH.
Qed.

(** Whatever its outcome, the loop keeps the length of the caller's slice,
    the names and the other fields of its elements. *)
Lemma range_frame n : ∀ i cs attrs cs' e,
  ValidateAndConvert_range n i cs attrs = (cs', e) →
  length cs' = length cs
  ∧ Name <$> cs' = Name <$> cs
  ∧ fields <$> cs' = fields <$> cs.
Proof.
  induction n as [|n IH]; intros i cs attrs cs' e H.
  - by injection H as <- <-.
  - apply range_turn in H as [(c & k & a & v & _ & _ & _ & H)|[-> _]]; [|done].
    apply IH in H as (-> & -> & ->).
    by rewrite length_alter, !fmap_alter_id.
Qed.

(** The loop only writes to the elements it visits. *)
Lemma range_untouched n : ∀ i cs attrs cs' e j,
  ValidateAndConvert_range n i cs attrs = (cs', e) →
  (j < i ∨ i + n ≤ j)%nat →
  cs' !! j = cs !! j.
Proof.
  induction n as [|n IH]; intros i cs attrs cs' e j H Hj.
  - by injection H as <- <-.
  - apply range_turn in H as [(c & k & a & v & _ & _ & _ & H)|[-> _]]; [|done].
    rewrite (IH _ _ _ _ _ j H) by lia.
    apply list_lookup_alter_ne. lia.
Qed.

(** When the loop runs to its end, one descriptor has been removed per
    attribute. *)
Lemma range_completed_count n : ∀ i cs attrs cs' rest,
  ValidateAndConvert_range n i cs attrs = (cs', Completed rest) →
  (length rest + n = length attrs)%nat.
Proof.
  induction n as [|n IH]; intros i cs attrs cs' rest H.
  - injection H as <- <-. lia.
  - apply range_turn in H as [(c & k & a & v & _ & Hfind & _ & H)|[_ H]].
    + apply IH in H. apply list_find_Some in Hfind as (Hk & _).
      rewrite length_delete in H by eauto. apply lookup_lt_Some in Hk. lia.
    + destruct H as [[_ [=]]|[(? & _ & _ & [=])|(? & ? & ? & ? & _ & _ & _ & [=])]].
Qed.

(** When the loop runs to its end, the names of the attributes visited and
    the ids of the descriptors left over are, together, the ids of the
    descriptors the loop started with. *)
Lemma range_completed_perm n : ∀ i cs attrs cs' rest,
  ValidateAndConvert_range n i cs attrs = (cs', Completed rest) →
  (Name <$> take n (drop i cs)) ++ (ID <$> rest) ≡ₚ ID <$> attrs.
Proof.
  induction n as [|n IH]; intros i cs attrs cs' rest H.
  - by injection H as <- <-.
  - apply range_turn in H as [(c & k & a & v & Hc & Hfind & _ & H)|[_ H]].
    + apply IH in H. apply list_find_Some in Hfind as (Hk & Hid & _).
      rewrite drop_alter_lt in H by lia.
      rewrite (drop_S _ _ _ Hc). simpl. rewrite H, <- Hid.
      rewrite list_fmap_delete.
      symmetry. apply delete_Permutation. by rewrite list_lookup_fmap, Hk.
    + destruct H as [[_ [=]]|[(? & _ & _ & [=])|(? & ? & ? & ? & _ & _ & _ & [=])]].
Qed.

(** When the loop runs to its end, every attribute visited carries the
    converted value of the value it had, for a descriptor with its name. *)
Lemma range_completed_values n : ∀ i cs attrs cs' rest j c,
  ValidateAndConvert_range n i cs attrs = (cs', Completed rest) →
  (i ≤ j < i + n)%nat →
  cs !! j = Some c →
  ∃ a v, a ∈ attrs ∧ ID a = Name c
         ∧ validateCredentialLinkAttribute a (Name c) (Value c) = Ok v
         ∧ cs' !! j = Some (set_Value v c).
Proof.
  induction n as [|n IH]; intros i cs attrs cs' rest j c H Hj Hc; [lia|].
  apply range_turn in H as [(c0 & k & a & v & Hc0 & Hfind & Hv & H)|[_ H]].
  - apply list_find_Some in Hfind as (Hk & Hid & _).
    destruct (decide (j = i)) as [->|Hne].
    + assert (c0 = c) as -> by congruence. exists a, v.
      split; [by eapply list_elem_of_lookup_2|]. split; [done|]. split; [done|].
      rewrite (range_untouched _ _ _ _ _ _ i H) by lia.
      by rewrite list_lookup_alter, decide_True, Hc by done.
    + destruct (IH _ _ _ _ _ j c H) as (a' & v' & Ha' & ?); [lia| |].
      { by rewrite list_lookup_alter_ne by lia. }
      exists a', v'. split; [|done]. by eapply list_elem_of_delete_inv.
  - destruct H as [[_ [=]]|[(? & _ & _ & [=])|(? & ? & ? & ? & _ & _ & _ & [=])]].
Qed.

(** ** Turns that end the call *)

Lemma turn_unmatched i cs attrs c :
  cs !! i = Some c →
  Name c ∉ ID <$> attrs →
  ValidateAndConvert_range 1 i cs attrs
  = (cs, Panicked (IndexOutOfRange (-1) (length attrs))).
Proof.
  intros Hc Hnot. apply list_find_None_ID in Hnot.
  destruct (findIndex_not_found _ _ Hnot) as [Hi Hs].
  simpl. by rewrite Hc, Hi, Hs.
Qed.

Lemma turn_error i cs attrs c a err :
  cs !! i = Some c →
  matched attrs (Name c) a →
  validateCredentialLinkAttribute a (Name c) (Value c) = Err err →
  ValidateAndConvert_range 1 i cs attrs = (cs, Returned err).
Proof.
  intros Hc [k Hfind] Hv.
  destruct (findIndex_found _ _ _ _ Hfind) as (Hi & Hs & _).
  simpl. by rewrite Hc, Hi, Hs, Hv.
Qed.

(** A call whose loop is ended at turn [i], after [i] turns that ran to their
    end, returns what that turn gives. *)
Lemma ValidateAndConvert_ends_at s cs attrs i cs1 rest cs2 e :
  AttributeNames s = Ok attrs →
  ValidateAndConvert_range i 0 cs attrs = (cs1, Completed rest) →
  (i < length cs)%nat →
  ValidateAndConvert_range 1 i cs1 rest = (cs2, e) →
  (∀ r, e ≠ Completed r) →
  ValidateAndConvert s cs =
    (cs2, match e with
          | Returned err => Err err
          | Panicked p => Panics p
          | Completed _ => Ok cs2
          end).
Proof.
  intros Hs Hpre Hi Hturn He. unfold ValidateAndConvert. rewrite Hs.
  replace (length cs) with (i + S (length cs - S i))%nat by lia.
  rewrite range_add, Hpre. simpl Nat.add.
  rewrite (range_fails_at _ _ _ _ _ _ Hturn He).
  destruct e; [by destruct (He schemaAttributes)|done..].
Qed.

(** ** Extraction of the descriptors *)

Lemma assert_map_None m key :
  assert_map (map_index m key) = None ↔ not_a_mapping m key.
Proof.
  unfold not_a_mapping, map_index.
  destruct (map_lookup m key) as [[]|]; simpl; split; try done;
    try (intros H; by destruct (H m0)).
Qed.

Lemma AttributeNames_at_path s props :
  at_path s props → AttributeNames s = AttributeNames_range props [].
Proof.
  intros (p1 & p2 & H1 & H2 & H3). unfold AttributeNames, map_index.
  rewrite H1. simpl. rewrite H2. simpl. by rewrite H3.
Qed.

Lemma at_path_schema_with props : at_path (schema_with props) props.
Proof. by eexists _, _. Qed.

Lemma AttributeNames_range_ok props : ∀ acc,
  Forall (λ kv, decodable kv.2) props →
  AttributeNames_range props acc =
    Ok (acc ++ ((λ kv, set_ID kv.1 (mapstructure.Decode kv.2 zero_Attribute).1) <$> props)).
Proof.
  induction props as [|[k prop] props IH]; intros acc Hd; simpl.
  - by rewrite app_nil_r.
  - inversion Hd as [|? ? Hp Hps]; subst. unfold decodable in Hp. simpl in Hp.
    destruct (mapstructure.Decode prop zero_Attribute) as [a [e|]]; [done|].
    rewrite IH by done. by rewrite <- app_assoc.
Qed.

Lemma AttributeNames_range_err pre k prop post e : ∀ acc,
  Forall (λ kv, decodable kv.2) pre →
  (mapstructure.Decode prop zero_Attribute).2 = Some e →
  AttributeNames_range (pre ++ (k, prop) :: post) acc =
    Err (fmt_Errorf "parsing attribute <%s>: %w" prop e).
Proof.
  induction pre as [|[k0 prop0] pre IH]; intros acc Hd He; simpl.
  - destruct (mapstructure.Decode prop zero_Attribute) as [a [e'|]]; simpl in He;
      by simplify_eq.
  - inversion Hd as [|? ? Hp Hps]; subst. unfold decodable in Hp. simpl in Hp.
    destruct (mapstructure.Decode prop0 zero_Attribute) as [a [e'|]]; [done|].
    by apply IH.
Qed.

End jsonschema_facts.

(** * The claims *)

Section claims.

Import jsonschema.

(** C1 (the code departs from it).  An attribute whose name matches none of
    the descriptors still unmatched, be it a name the schema does not have
    or a name whose descriptor an earlier attribute has consumed, does not
    make [ValidateAndConvert] return an error: the not-found index -1 is
    used to index the descriptors and the call panics. *)
Theorem ValidateAndConvert_unmatched_name_panics {F : Type}
    (s : JSONSchema) (cs : list (CredentialAttributes F)) attrs i cs1 rest c :
  AttributeNames s = Ok attrs →
  ValidateAndConvert_range i 0 cs attrs = (cs1, Completed rest) →
  cs !! i = Some c →
  Name c ∉ ID <$> rest →
  findIndexForSchemaAttribute rest (Name c) = -1
  ∧ ValidateAndConvert s cs = (cs1, Panics (IndexOutOfRange (-1) (length rest))).
Proof.
  intros Hs Hpre Hc Hnot. split.
  { apply list_find_None_ID in Hnot. apply (proj1 (findIndex_not_found _ _ Hnot)). }
  assert (cs1 !! i = Some c) as Hc1.
  { by rewrite (range_untouched _ _ _ _ _ _ i Hpre) by lia. }
  apply (ValidateAndConvert_ends_at s cs attrs i cs1 rest cs1
           (Panicked (IndexOutOfRange (-1) (length rest)))); try done.
  - by eapply lookup_lt_Some.
  - by apply (turn_unmatched i cs1 rest c).
Qed.

Lemma ValidateAndConvert_unmatched_name_panics_witness :
  ValidateAndConvert sample_schema
    [attribute "age" (Str "42"); attribute "age" (Str "43")]
  = ([attribute "age" (Int 42); attribute "age" (Str "43")],
     Panics (IndexOutOfRange (-1) 2)).
Proof.
  refine (proj2 (ValidateAndConvert_unmatched_name_panics
            sample_schema [attribute "age" (Str "42"); attribute "age" (Str "43")]
            [mkAttribute "age" "" "integer" ""; mkAttribute "name" "" "string" "";
             mkAttribute "id" "" "string" ""]
            1 _
            [mkAttribute "name" "" "string" ""; mkAttribute "id" "" "string" ""]
            (attribute "age" (Str "43")) _ _ _ _)).
  - reflexivity.
  - reflexivity.
  - reflexivity.
  - simpl. intros H. repeat (apply elem_of_cons in H as [H|H]; [discriminate H|]).
    by apply elem_of_nil in H.
Defined.

(** C2.  When the loop has processed every supplied attribute, one
    descriptor has been removed for each of them, and the call succeeds if
    exactly one descriptor is left; with any other number left, zero
    included, it returns the error on the number of attributes. *)
Theorem ValidateAndConvert_count {F : Type}
    (s : JSONSchema) (cs : list (CredentialAttributes F)) attrs cs' rest :
  AttributeNames s = Ok attrs →
  ValidateAndConvert_range (length cs) 0 cs attrs = (cs', Completed rest) →
  (length rest + length cs = length attrs)%nat
  ∧ (length rest = 1%nat → ValidateAndConvert s cs = (cs', Ok cs'))
  ∧ (length rest ≠ 1%nat → ValidateAndConvert s cs = (cs', Err CountMismatchError))
  ∧ ((∃ out, ValidateAndConvert s cs = (cs', Ok out)) ↔ length rest = 1%nat).
Proof.
  intros Hs Hloop. split; [by eapply range_completed_count|].
  unfold ValidateAndConvert. rewrite Hs, Hloop.
  destruct (decide (length rest ≠ 1%nat)) as [Hne|Heq].
  - split; [done|]. split; [done|]. split; [by intros [? [=]]|done].
  - apply dec_stable in Heq. split; [done|]. split; [by intros Hne|].
    split; [done|]. intros _. by exists cs'.
Qed.

Lemma ValidateAndConvert_count_witness :
  ValidateAndConvert sample_schema
    [attribute "age" (Str "42"); attribute "name" (Str "alice"); attribute "id" (Str "x")]
  = ([attribute "age" (Int 42); attribute "name" (Str "alice"); attribute "id" (Str "x")],
     Err CountMismatchError).
Proof.
  refine (proj1 (proj2 (proj2 (ValidateAndConvert_count sample_schema
            [attribute "age" (Str "42"); attribute "name" (Str "alice");
             attribute "id" (Str "x")]
            [mkAttribute "age" "" "integer" ""; mkAttribute "name" "" "string" "";
             mkAttribute "id" "" "string" ""]
            _ [] _ _))) _).
  - reflexivity.
  - reflexivity.
  - simpl. lia.
Defined.

(** C8.  When [ValidateAndConvert] succeeds, the sequence it returns is the
    caller's slice: it has the length of the input, the same names in the
    same order and the same other fields, and the value of each attribute
    has been replaced: the element at each index is the attribute supplied
    at that index with, as its value, the converted value [v] of the value
    supplied, for a descriptor of the schema with the name of the
    attribute.  The value found at that index of the sequence returned is
    [v], and nothing else of the element has changed. *)
Theorem ValidateAndConvert_ok_frame {F : Type}
    (s : JSONSchema) (cs cs' out : list (CredentialAttributes F)) :
  ValidateAndConvert s cs = (cs', Ok out) →
  out = cs'
  ∧ length out = length cs
  ∧ Name <$> out = Name <$> cs
  ∧ fields <$> out = fields <$> cs
  ∧ ∃ attrs, AttributeNames s = Ok attrs
      ∧ ∀ j c, cs !! j = Some c →
          ∃ a v, a ∈ attrs ∧ ID a = Name c
                 ∧ validateCredentialLinkAttribute a (Name c) (Value c) = Ok v
                 ∧ out !! j = Some (set_Value v c)
                 ∧ out !! j = Some (mkCredentialAttributes (Name c) v (fields c))
                 ∧ Value <$> out !! j = Some v.
Proof.
  unfold ValidateAndConvert.
  destruct (AttributeNames s) as [attrs|e|p] eqn:Hs; [|by intros [=]..].
  destruct (ValidateAndConvert_range (length cs) 0 cs attrs) as [cs1 [rest|err|p]] eqn:Hloop;
    [|by intros [=]..].
  case_decide; intros [= <- <-].
  destruct (range_frame _ _ _ _ _ _ Hloop) as (Hlen & Hnames & Hfields).
  split; [done|]. split; [done|]. split; [done|]. split; [done|].
  exists attrs. split; [done|]. intros j c Hc.
  destruct (range_completed_values _ _ _ _ _ _ j c Hloop) as (a & v & Ha & Hid & Hv & Hj);
    [apply lookup_lt_Some in Hc; lia|done|].
  exists a, v. split; [done|]. split; [done|]. split; [done|]. split; [done|].
  rewrite Hj. split; reflexivity.
Qed.

Lemma ValidateAndConvert_ok_frame_witness :
  ∃ a v,
    ID a = "age"
    ∧ validateCredentialLinkAttribute a "age" (Str "42") = Ok v
    ∧ [attribute "age" (Int 42); attribute "name" (Str "alice")] !! 0%nat
      = Some (attribute "age" v)
    ∧ v = Int 42.
Proof.
  destruct (ValidateAndConvert_ok_frame sample_schema
              [attribute "age" (Str "42"); attribute "name" (Str "alice")]
              [attribute "age" (Int 42); attribute "name" (Str "alice")]
              [attribute "age" (Int 42); attribute "name" (Str "alice")] eq_refl)
    as (_ & _ & _ & _ & attrs & _ & Hvalues).
  destruct (Hvalues 0%nat (attribute "age" (Str "42")) eq_refl)
    as (a & v & _ & Hid & Hv & _ & Hout & Hval).
  exists a, v. split; [exact Hid|]. split; [exact Hv|]. split; [exact Hout|].
  simpl in Hval. by injection Hval as <-.
Defined.

(** C10.  Whatever makes the extraction of the descriptors fail, a missing
    level of the path or a sub-mapping that does not decode,
    [ValidateAndConvert] returns the one error [ErrProcessSchema] and leaves
    the attributes as they are: the error of the extraction is dropped. *)
Theorem ValidateAndConvert_schema_error {F : Type}
    (s : JSONSchema) (cs : list (CredentialAttributes F)) e :
  AttributeNames s = Err e →
  ValidateAndConvert s cs = (cs, Err ErrProcessSchema).
Proof. intros Hs. unfold ValidateAndConvert. by rewrite Hs. Qed.

Lemma ValidateAndConvert_schema_error_witness :
  ValidateAndConvert (mkJSONSchema [("properties", Str "x")]) [attribute "age" (Str "42")]
  = ([attribute "age" (Str "42")], Err ErrProcessSchema).
Proof.
  apply (ValidateAndConvert_schema_error _ _ (SchemaStructureError "properties")).
  reflexivity.
Defined.

(** C3.  For a document whose three levels are mappings and whose innermost
    mapping holds sub-mappings that all decode, [AttributeNames] returns one
    descriptor per key: as many descriptors as keys, with the keys as their
    ids (hence distinct ids, the same set as the keys), each descriptor
    being the decoded sub-mapping with its id replaced by the key, whatever
    id the sub-mapping gives. *)
Theorem AttributeNames_extracts (s : JSONSchema) (props : list (string * any)) :
  at_path s props →
  distinct_keys props →
  Forall (λ kv, decodable kv.2) props →
  ∃ attrs,
    AttributeNames s = Ok attrs
    ∧ length attrs = length props
    ∧ ID <$> attrs = keys props
    ∧ NoDup (ID <$> attrs)
    ∧ (∀ id, id ∈ ID <$> attrs ↔ id ∈ keys props)
    ∧ Forall2 (λ kv a, a = set_ID kv.1 (mapstructure.Decode kv.2 zero_Attribute).1)
        props attrs.
Proof.
  intros Hpath Hkeys Hdec.
  rewrite (AttributeNames_at_path _ _ Hpath), AttributeNames_range_ok by done.
  eexists. split; [done|]. simpl.
  assert (ID <$> ((λ kv, set_ID kv.1 (mapstructure.Decode kv.2 zero_Attribute).1) <$> props)
          = keys props) as Hids.
  { unfold keys. rewrite <- list_fmap_compose. by apply list_fmap_ext. }
  split; [by rewrite length_fmap|]. split; [done|]. rewrite Hids.
  split; [done|]. split; [done|].
  clear. induction props; by constructor.
Qed.

Lemma AttributeNames_extracts_witness :
  ∃ attrs,
    AttributeNames (schema_with [("age", Map [("id", Str "other"); ("type", Str "integer")])])
    = Ok attrs
    ∧ ID <$> attrs = ["age"].
Proof.
  destruct (AttributeNames_extracts
              (schema_with [("age", Map [("id", Str "other"); ("type", Str "integer")])])
              [("age", Map [("id", Str "other"); ("type", Str "integer")])])
    as (attrs & Hs & _ & Hids & _).
  - apply at_path_schema_with.
  - apply NoDup_singleton.
  - repeat constructor.
  - by exists attrs.
Defined.

(** C4.  When [properties], [properties.credentialSubject] or
    [properties.credentialSubject.properties] is missing or is not a
    mapping, [AttributeNames] returns the error that names that level of the
    path, and no descriptor; the three errors differ. *)
Theorem AttributeNames_missing_level (s : JSONSchema) :
  (not_a_mapping (content s) "properties" →
   AttributeNames s = Err (SchemaStructureError "properties"))
  ∧ (∀ p1,
       map_lookup (content s) "properties" = Some (Map p1) →
       not_a_mapping p1 "credentialSubject" →
       AttributeNames s = Err (SchemaStructureError "properties.credentialSubject"))
  ∧ (∀ p1 p2,
       map_lookup (content s) "properties" = Some (Map p1) →
       map_lookup p1 "credentialSubject" = Some (Map p2) →
       not_a_mapping p2 "properties" →
       AttributeNames s
       = Err (SchemaStructureError "properties.credentialSubject.properties"))
  ∧ SchemaStructureError "properties"
    ≠ SchemaStructureError "properties.credentialSubject"
  ∧ SchemaStructureError "properties"
    ≠ SchemaStructureError "properties.credentialSubject.properties"
  ∧ SchemaStructureError "properties.credentialSubject"
    ≠ SchemaStructureError "properties.credentialSubject.properties".
Proof.
  unfold AttributeNames. repeat split; try discriminate.
  - intros H. apply assert_map_None in H. by rewrite H.
  - intros p1 H1 H. apply assert_map_None in H.
    unfold map_index at 1. rewrite H1. simpl. by rewrite H.
  - intros p1 p2 H1 H2 H. apply assert_map_None in H.
    unfold map_index at 1. rewrite H1. simpl.
    unfold map_index at 1. rewrite H2. simpl. by rewrite H.
Qed.

Lemma AttributeNames_missing_level_witness :
  AttributeNames (mkJSONSchema [("properties", Map [("credentialSubject", Str "x")])])
  = Err (SchemaStructureError "properties.credentialSubject").
Proof.
  apply (proj1 (proj2 (AttributeNames_missing_level
           (mkJSONSchema [("properties", Map [("credentialSubject", Str "x")])])))
         [("credentialSubject", Str "x")]).
  - reflexivity.
  - intros m'. discriminate.
Defined.

(** C9 (the code departs from it).  When a sub-mapping does not decode, the
    error of [AttributeNames] is made of the sub-mapping and of the error
    of the decoder, which is given the sub-mapping only: the key under
    which the sub-mapping sits is no part of it, and the same sub-mapping
    under another key gives the same error. *)
Theorem AttributeNames_decoding_error_omits_key pre k k' prop post e :
  Forall (λ kv, decodable kv.2) pre →
  (mapstructure.Decode prop zero_Attribute).2 = Some e →
  AttributeNames (schema_with (pre ++ (k, prop) :: post))
  = Err (fmt_Errorf "parsing attribute <%s>: %w" prop e)
  ∧ AttributeNames (schema_with (pre ++ (k', prop) :: post))
    = AttributeNames (schema_with (pre ++ (k, prop) :: post)).
Proof.
  intros Hpre He.
  rewrite !(AttributeNames_at_path _ _ (at_path_schema_with _)).
  by rewrite !(AttributeNames_range_err pre _ prop post e).
Qed.

Lemma AttributeNames_decoding_error_omits_key_witness :
  AttributeNames (schema_with [("age", Map [("type", Float64 5)])])
  = Err (fmt_Errorf "parsing attribute <%s>: %w" (Map [("type", Float64 5)])
           (mapstructure_Error [("Type", Float64 5)]))
  ∧ AttributeNames (schema_with [("height", Map [("type", Float64 5)])])
    = AttributeNames (schema_with [("age", Map [("type", Float64 5)])]).
Proof.
  apply (AttributeNames_decoding_error_omits_key [] "age" "height"
           (Map [("type", Float64 5)]) []).
  - constructor.
  - reflexivity.
Defined.

(** ** The conversion of one value *)

Lemma validate_string a name v :
  Type_ a = "string" →
  validateCredentialLinkAttribute a name v =
    match assert_string v with
    | None => Err (TypeMismatchError name)
    | Some s => Ok (Str s)
    end.
Proof. intros Ht. unfold validateCredentialLinkAttribute. by rewrite Ht. Qed.

Lemma validate_integer a name v :
  Type_ a = "integer" →
  validateCredentialLinkAttribute a name v =
    match assert_string v with
    | None => Err (TypeMismatchError name)
    | Some s =>
        match strconv.Atoi s with
        | (_, Some _) => Err (ParseError name "an integer")
        | (n, None) => Ok (Int n)
        end
    end.
Proof. intros Ht. unfold validateCredentialLinkAttribute. by rewrite Ht. Qed.

Lemma validate_boolean a name v :
  Type_ a = "boolean" →
  validateCredentialLinkAttribute a name v =
    match assert_string v with
    | None => Err (TypeMismatchError name)
    | Some s =>
        match strconv.ParseBool s with
        | (_, Some _) => Err (ParseError name "a boolean")
        | (b, None) => Ok (Bool b)
        end
    end.
Proof. intros Ht. unfold validateCredentialLinkAttribute. by rewrite Ht. Qed.

Lemma validate_unsupported a name v :
  Type_ a ∉ ["string"; "integer"; "boolean"] →
  validateCredentialLinkAttribute a name v = Err (UnsupportedTypeError name).
Proof.
  intros Ht. unfold validateCredentialLinkAttribute.
  repeat case_decide; try done; exfalso; apply Ht;
    match goal with H : Type_ a = _ |- _ => rewrite H end;
    repeat first [apply list_elem_of_here | apply list_elem_of_further].
Qed.

Lemma assert_string_None v : assert_string v = None ↔ ∀ s, v ≠ Str s.
Proof. destruct v; simpl; split; try done. intros H. by destruct (H s). Qed.

(** A conversion error at turn [i] is what the call returns, and the
    attribute of that turn keeps the value it was supplied with. *)
Lemma ValidateAndConvert_conversion_error {F : Type}
    (s : JSONSchema) (cs : list (CredentialAttributes F)) attrs i cs1 rest c a err :
  AttributeNames s = Ok attrs →
  ValidateAndConvert_range i 0 cs attrs = (cs1, Completed rest) →
  cs !! i = Some c →
  matched rest (Name c) a →
  validateCredentialLinkAttribute a (Name c) (Value c) = Err err →
  ValidateAndConvert s cs = (cs1, Err err) ∧ cs1 !! i = Some c.
Proof.
  intros Hs Hpre Hc Hm Hv.
  assert (cs1 !! i = Some c) as Hc1.
  { by rewrite (range_untouched _ _ _ _ _ _ i Hpre) by lia. }
  split; [|done].
  apply (ValidateAndConvert_ends_at s cs attrs i cs1 rest cs1 (Returned err)); try done.
  - by eapply lookup_lt_Some.
  - by apply (turn_error i cs1 rest c a).
Qed.

(** C5, as the code has it.  For an attribute matched to a descriptor of
    type "integer", the conversion yields the integer [n] exactly when the
    value supplied is a string that is a base-10 integer literal (an
    optional sign and decimal digits) denoting [n], with [n] a value of the
    64-bit [int]; a successful conversion yields nothing but such an
    integer.  A value that is not a string gives the type-mismatch error, a
    string that is no such literal gives the parse error, and in both cases
    the call returns that error and the attribute keeps its value. *)
Theorem integer_conversion {F : Type} (a : Attribute) :
  Type_ a = "integer" →
  (∀ name v n,
     validateCredentialLinkAttribute a name v = Ok (Int n)
     ↔ ∃ s, v = Str s ∧ base10_literal s = Some n ∧ int_range n)
  ∧ (∀ name v r, validateCredentialLinkAttribute a name v = Ok r → ∃ n, r = Int n)
  ∧ (∀ name v, (∀ s, v ≠ Str s) →
       validateCredentialLinkAttribute a name v = Err (TypeMismatchError name))
  ∧ (∀ name s, (∀ n, ¬ (base10_literal s = Some n ∧ int_range n)) →
       validateCredentialLinkAttribute a name (Str s)
       = Err (ParseError name "an integer"))
  ∧ (∀ (s : JSONSchema) (cs : list (CredentialAttributes F)) attrs i cs1 rest c err,
       AttributeNames s = Ok attrs →
       ValidateAndConvert_range i 0 cs attrs = (cs1, Completed rest) →
       cs !! i = Some c →
       matched rest (Name c) a →
       validateCredentialLinkAttribute a (Name c) (Value c) = Err err →
       ValidateAndConvert s cs = (cs1, Err err) ∧ cs1 !! i = Some c).
Proof.
  intros Ht. repeat split.
  - rewrite (validate_integer _ _ _ Ht).
    destruct v; simpl; try done.
    destruct (strconv.Atoi s) as [m [e|]] eqn:E; [done|].
    intros [= ->]. exists s. by apply Atoi_ok in E as [? ?].
  - intros (s & -> & Hlit & Hrange). rewrite (validate_integer _ _ _ Ht). simpl.
    by rewrite (proj2 (Atoi_ok s n) (conj Hlit Hrange)).
  - intros name v r. rewrite (validate_integer _ _ _ Ht).
    destruct (assert_string v); [|done].
    destruct (strconv.Atoi s) as [m [e|]]; [done|]. intros [= <-]. by exists m.
  - intros name v Hv. rewrite (validate_integer _ _ _ Ht).
    by rewrite (proj2 (assert_string_None v) Hv).
  - intros name s Hs. rewrite (validate_integer _ _ _ Ht). simpl.
    by destruct (Atoi_error s Hs) as (v & e & ->).
  - by eapply ValidateAndConvert_conversion_error.
  - by eapply (ValidateAndConvert_conversion_error s cs attrs i cs1 rest c a err).
Qed.

Lemma integer_conversion_witness :
  validateCredentialLinkAttribute (mkAttribute "age" "" "integer" "") "age" (Str "-042")
  = Ok (Int (-42)).
Proof.
  apply (proj1 (integer_conversion (F:=()) (mkAttribute "age" "" "integer" "") eq_refl)).
  exists "-042". split; [reflexivity|]. split; [reflexivity|].
  unfold int_range. lia.
Defined.

(** C5, as it is stated, fails: the string "9223372036854775808" is a
    base-10 integer literal, and the conversion rejects it, for it is not a
    value of [int]. *)
Lemma integer_literal_beyond_int_rejected :
  ¬ converts_every_integer_literal
      (mkAttribute "age" "" "integer" "") "age" (Str "9223372036854775808").
Proof.
  intros [_ H].
  destruct H as [n Hn]; [by exists "9223372036854775808", 9223372036854775808|].
  vm_compute in Hn. discriminate Hn.
Qed.

(** C6.  For an attribute matched to a descriptor of type "boolean", the
    conversion yields the boolean [b] exactly when the value supplied is a
    string that is a boolean literal of [b]: one of 1, t, T, TRUE, true,
    True for true and one of 0, f, F, FALSE, false, False for false.  A
    value that is not a string gives the type-mismatch error, any other
    string the parse error, and the call returns that error. *)
Theorem boolean_conversion {F : Type} (a : Attribute) :
  Type_ a = "boolean" →
  (∀ name v b,
     validateCredentialLinkAttribute a name v = Ok (Bool b)
     ↔ ∃ s, v = Str s ∧ boolean_literal s = Some b)
  ∧ (∀ name v r, validateCredentialLinkAttribute a name v = Ok r → ∃ b, r = Bool b)
  ∧ (∀ name v, (∀ s, v ≠ Str s) →
       validateCredentialLinkAttribute a name v = Err (TypeMismatchError name))
  ∧ (∀ name s, boolean_literal s = None →
       validateCredentialLinkAttribute a name (Str s)
       = Err (ParseError name "a boolean"))
  ∧ (∀ (s : JSONSchema) (cs : list (CredentialAttributes F)) attrs i cs1 rest c err,
       AttributeNames s = Ok attrs →
       ValidateAndConvert_range i 0 cs attrs = (cs1, Completed rest) →
       cs !! i = Some c →
       matched rest (Name c) a →
       validateCredentialLinkAttribute a (Name c) (Value c) = Err err →
       ValidateAndConvert s cs = (cs1, Err err) ∧ cs1 !! i = Some c).
Proof.
  intros Ht. repeat split.
  - rewrite (validate_boolean _ _ _ Ht).
    destruct v; simpl; try done.
    destruct (strconv.ParseBool s) as [m [e|]] eqn:E; [done|].
    intros [= ->]. exists s. by apply ParseBool_ok in E.
  - intros (s & -> & Hlit). rewrite (validate_boolean _ _ _ Ht). simpl.
    by rewrite (proj2 (ParseBool_ok s b) Hlit).
  - intros name v r. rewrite (validate_boolean _ _ _ Ht).
    destruct (assert_string v); [|done].
    destruct (strconv.ParseBool s) as [m [e|]]; [done|]. intros [= <-]. by exists m.
  - intros name v Hv. rewrite (validate_boolean _ _ _ Ht).
    by rewrite (proj2 (assert_string_None v) Hv).
  - intros name s Hs. rewrite (validate_boolean _ _ _ Ht). simpl.
    by destruct (ParseBool_error s Hs) as (v & e & ->).
  - by eapply ValidateAndConvert_conversion_error.
  - by eapply (ValidateAndConvert_conversion_error s cs attrs i cs1 rest c a err).
Qed.

Lemma boolean_conversion_witness :
  validateCredentialLinkAttribute (mkAttribute "active" "" "boolean" "") "active"
    (Str "notabool")
  = Err (ParseError "active" "a boolean").
Proof.
  apply (proj1 (proj2 (proj2 (proj2
           (boolean_conversion (F:=()) (mkAttribute "active" "" "boolean" "") eq_refl))))).
  reflexivity.
Defined.

(** C7.  For an attribute matched to a descriptor whose type is none of
    "string", "integer" and "boolean", the conversion gives the
    unsupported-type error naming the attribute, whatever value is
    supplied, and [ValidateAndConvert] returns that error. *)
Theorem unsupported_type_conversion {F : Type} (a : Attribute) :
  Type_ a ∉ ["string"; "integer"; "boolean"] →
  (∀ name v, validateCredentialLinkAttribute a name v = Err (UnsupportedTypeError name))
  ∧ (∀ (s : JSONSchema) (cs : list (CredentialAttributes F)) attrs i cs1 rest c,
       AttributeNames s = Ok attrs →
       ValidateAndConvert_range i 0 cs attrs = (cs1, Completed rest) →
       cs !! i = Some c →
       matched rest (Name c) a →
       ValidateAndConvert s cs = (cs1, Err (UnsupportedTypeError (Name c)))).
Proof.
  intros Ht. split; [intros; by apply validate_unsupported|].
  intros s cs attrs i cs1 rest c Hs Hpre Hc Hm.
  apply (proj1 (ValidateAndConvert_conversion_error s cs attrs i cs1 rest c a _
                  Hs Hpre Hc Hm (validate_unsupported _ _ _ Ht))).
Qed.

Lemma unsupported_type_conversion_witness :
  ValidateAndConvert (schema_with [("born", Map [("type", Str "date")]); ("id", Nil)])
    [attribute "born" (Str "2001-02-03")]
  = ([attribute "born" (Str "2001-02-03")], Err (UnsupportedTypeError "born")).
Proof.
  refine (proj2 (unsupported_type_conversion (mkAttribute "born" "" "date" "") _)
            (schema_with [("born", Map [("type", Str "date")]); ("id", Nil)])
            [attribute "born" (Str "2001-02-03")]
            [mkAttribute "born" "" "date" ""; mkAttribute "id" "" "" ""]
            0%nat _ _ (attribute "born" (Str "2001-02-03")) _ _ _ _).
  - simpl. intros H. repeat (apply elem_of_cons in H as [H|H]; [discriminate H|]).
    by apply elem_of_nil in H.
  - reflexivity.
  - reflexivity.
  - reflexivity.
  - by exists 0%nat.
Defined.

End claims.

(** * Further properties of the package *)

Section further.

Import jsonschema.

(** ** Strings *)

Lemma string_length_app (s t : string) :
  String.length (s +:+ t) = (String.length s + String.length t)%nat.
Proof. induction s; simpl; [done|]. by rewrite IHs. Qed.

Lemma bytes_app (s t : string) : bytes (s +:+ t) = bytes s ++ bytes t.
Proof. induction s; simpl; [done|]. by rewrite IHs. Qed.

(** ** [String] and [SchemaAttrs] *)

(** [String] renders an attribute without a title as its id and an
    attribute with a title as the title followed by the id in parentheses;
    the rendering is the bare id only when there is no title. *)
Theorem String_spec (a : Attribute) :
  (Title a = "" → String a = ID a)
  ∧ (Title a ≠ "" → String a = Title a +:+ "(" +:+ ID a +:+ ")")
  ∧ (String a = ID a ↔ Title a = "").
Proof.
  unfold String. case_decide as Ht.
  - split; [done|]. split; [done|]. split; [|done].
    intros H. apply (f_equal String.length) in H.
    rewrite !string_length_app in H. simpl in H. lia.
  - by split; [|split].
Qed.

Lemma String_spec_witness :
  String (mkAttribute "age" "Age" "integer" "") = "Age(age)".
Proof.
  apply (proj1 (proj2 (String_spec (mkAttribute "age" "Age" "integer" "")))).
  discriminate.
Defined.

Lemma SchemaAttrs_fold (a : list Attribute) : ∀ (done rest : list string),
  length rest = length a →
  foldl (λ out '(i, attr), <[i := String attr]> out) (done ++ rest)
        (imap (λ i, pair (length done + i)%nat) a)
  = done ++ (String <$> a).
Proof.
  induction a as [|x a IH]; intros done rest Hlen.
  - destruct rest; [done|discriminate].
  - destruct rest as [|r rest]; [discriminate|]. simpl.
    rewrite insert_app_r. simpl.
    rewrite (cons_middle (String x) done rest), app_assoc.
    rewrite (imap_ext _ (λ i, pair (length (done ++ [String x]) + i)%nat)).
    2:{ intros i y _. simpl. rewrite length_app. simpl. f_equal. lia. }
    rewrite IH by (simpl in Hlen; lia).
    by rewrite <- app_assoc.
Qed.

(** [SchemaAttrs] returns a slice as long as the list of attributes, whose
    element at each index is the rendering of the attribute at that index:
    the order of the attributes is kept. *)
Theorem SchemaAttrs_spec (a : Attributes) :
  SchemaAttrs a = String <$> a
  ∧ length (SchemaAttrs a) = length a
  ∧ ∀ i, SchemaAttrs a !! i = String <$> a !! i.
Proof.
  assert (SchemaAttrs a = String <$> a) as ->.
  { unfold SchemaAttrs.
    apply (SchemaAttrs_fold a [] (replicate (length a) "")).
    apply length_replicate. }
  split; [done|]. split; [apply length_fmap|]. intros i. apply list_lookup_fmap.
Qed.

(** ** [JSONLdContext] and [SchemaHash] *)

(** [JSONLdContext] returns a context exactly when [$metadata] and its
    [uris] are mappings and [jsonLdContext] is bound to a string, which is
    the context returned. *)
Theorem JSONLdContext_ok (s : JSONSchema) (ctx : string) :
  JSONLdContext s = Ok ctx
  ↔ ∃ metadata uris,
      map_lookup (content s) "$metadata" = Some (Map metadata)
      ∧ map_lookup metadata "uris" = Some (Map uris)
      ∧ map_lookup uris "jsonLdContext" = Some (Str ctx).
Proof.
  unfold JSONLdContext, map_index. split.
  - destruct (map_lookup (content s) "$metadata") as [[| | | | | |metadata]|] eqn:H1;
      simpl; try done.
    destruct (map_lookup metadata "uris") as [[| | | | | |uris]|] eqn:H2;
      simpl; try done.
    destruct (map_lookup uris "jsonLdContext") as [[|c| | | | |]|] eqn:H3;
      simpl; try done.
    intros [= ->]. by exists metadata, uris.
  - intros (metadata & uris & -> & H2 & H3). simpl. rewrite H2. simpl. by rewrite H3.
Qed.

(** A level of [$metadata.uris.jsonLdContext] that is missing or of the
    wrong type makes [JSONLdContext] return the error naming that level; a
    [jsonLdContext] that is not a string counts as missing. *)
Theorem JSONLdContext_missing_level (s : JSONSchema) :
  (not_a_mapping (content s) "$metadata" →
   JSONLdContext s = Err (SchemaStructureError "$metadata"))
  ∧ (∀ metadata,
       map_lookup (content s) "$metadata" = Some (Map metadata) →
       not_a_mapping metadata "uris" →
       JSONLdContext s = Err (SchemaStructureError "$metadata.uris"))
  ∧ (∀ metadata uris,
       map_lookup (content s) "$metadata" = Some (Map metadata) →
       map_lookup metadata "uris" = Some (Map uris) →
       (∀ ctx, map_lookup uris "jsonLdContext" ≠ Some (Str ctx)) →
       JSONLdContext s = Err (SchemaStructureError "$metadata.uris.jsonLdContext")).
Proof.
  unfold JSONLdContext. repeat split.
  - intros H. apply assert_map_None in H. by rewrite H.
  - intros metadata H1 H. apply assert_map_None in H.
    unfold map_index at 1. rewrite H1. simpl. by rewrite H.
  - intros metadata uris H1 H2 H.
    unfold map_index at 1. rewrite H1. simpl.
    unfold map_index at 1. rewrite H2. simpl.
    unfold map_index. destruct (map_lookup uris "jsonLdContext") as [[]|]; try done.
    by destruct (H s0).
Qed.

Lemma JSONLdContext_missing_level_witness :
  JSONLdContext
    (mkJSONSchema [("$metadata", Map [("uris", Map [("jsonLdContext", Float64 1)])])])
  = Err (SchemaStructureError "$metadata.uris.jsonLdContext").
Proof.
  apply (proj2 (proj2 (JSONLdContext_missing_level
           (mkJSONSchema [("$metadata", Map [("uris", Map [("jsonLdContext", Float64 1)])])])))
         [("uris", Map [("jsonLdContext", Float64 1)])] [("jsonLdContext", Float64 1)]).
  - reflexivity.
  - reflexivity.
  - intros ctx. discriminate.
Defined.

(** [SchemaHash] hashes the bytes of the context, a number sign and the
    bytes of the schema type, in this order; it fails only when
    [JSONLdContext] does, with the same error, so that the hash depends on
    the document through its context alone. *)
Theorem SchemaHash_spec {Hash : Type} (CreateSchemaHash : list Z → Hash)
    (s : JSONSchema) (schemaType : string) :
  (∀ ctx, JSONLdContext s = Ok ctx →
     SchemaHash CreateSchemaHash s schemaType
     = Ok (CreateSchemaHash (bytes ctx ++ 35 :: bytes schemaType)))
  ∧ (∀ e, JSONLdContext s = Err e →
       SchemaHash CreateSchemaHash s schemaType = Err e)
  ∧ (∀ s', JSONLdContext s' = JSONLdContext s →
       SchemaHash CreateSchemaHash s' schemaType
       = SchemaHash CreateSchemaHash s schemaType).
Proof.
  unfold SchemaHash. split; [|split].
  - intros ctx ->. by rewrite !bytes_app.
  - by intros e ->.
  - by intros s' ->.
Qed.

Lemma SchemaHash_spec_witness :
  SchemaHash (λ id, id)
    (mkJSONSchema [("$metadata", Map [("uris", Map [("jsonLdContext", Str "u")])])]) "T"
  = Ok [117; 35; 84].
Proof.
  apply (proj1 (SchemaHash_spec (λ id, id)
           (mkJSONSchema [("$metadata", Map [("uris", Map [("jsonLdContext", Str "u")])])])
           "T") "u").
  reflexivity.
Defined.

(** ** The helpers of [ValidateAndConvert] *)

(** [findIndexForSchemaAttribute] returns -1 exactly when no attribute has
    the id looked for; otherwise it returns the index of the first
    attribute with that id, an index of the list. *)
Theorem findIndexForSchemaAttribute_spec (attrs : list Attribute) (name : string) :
  (findIndexForSchemaAttribute attrs name = -1 ↔ name ∉ ID <$> attrs)
  ∧ (∀ k : nat,
       findIndexForSchemaAttribute attrs name = Z.of_nat k
       ↔ (∃ a, attrs !! k = Some a ∧ ID a = name)
         ∧ ∀ j a', (j < k)%nat → attrs !! j = Some a' → ID a' ≠ name)
  ∧ -1 <= findIndexForSchemaAttribute attrs name < Z.of_nat (length attrs).
Proof.
  unfold findIndexForSchemaAttribute. rewrite findIndex_from_spec.
  destruct (list_find (λ a, ID a = name) attrs) as [[k a]|] eqn:Hfind.
  - pose proof Hfind as Hf. apply list_find_Some in Hf as (Hk & Hid & Hfirst).
    pose proof (lookup_lt_Some _ _ _ Hk) as Hlt.
    split; [|split; [|lia]].
    + split; [lia|]. intros Hnot. exfalso. apply Hnot.
      apply list_elem_of_fmap. exists a. split; [done|by eapply list_elem_of_lookup_2].
    + intros k'. split.
      * intros Hk'. assert (k' = k) as -> by lia. split; [by exists a|].
        intros j a' Hj Ha'. by eapply Hfirst.
      * intros [(a' & Ha' & Hid') Hmin].
        destruct (Nat.lt_trichotomy k k') as [Hlt'|[->|Hgt]]; [|lia|].
        -- by destruct (Hmin k a Hlt' Hk).
        -- by destruct (Hfirst k' a' Ha' Hgt).
  - split; [|split; [|lia]].
    + split; [|done]. intros _. by apply list_find_None_ID.
    + intros k'. split; [lia|]. intros [(a' & Ha' & Hid') _]. exfalso.
      apply list_find_None in Hfind.
      by apply (proj1 (Forall_lookup _ _) Hfind k' a').
Qed.



(** For a descriptor of type "string" the conversion passes a string
    through unchanged and rejects every other value with the type-mismatch
    error: it never fails on a string. *)
Theorem string_conversion (a : Attribute) :
  Type_ a = "string" →
  (∀ name v r,
     validateCredentialLinkAttribute a name v = Ok r ↔ (∃ s, v = Str s) ∧ r = v)
  ∧ (∀ name v, (∀ s, v ≠ Str s) →
       validateCredentialLinkAttribute a name v = Err (TypeMismatchError name)).
Proof.
  intros Ht. split.
  - intros name v r. rewrite (validate_string _ _ _ Ht). split.
    + destruct v; simpl; try done. intros [= <-]. by eauto.
    + by intros [[s ->] ->].
  - intros name v Hv. rewrite (validate_string _ _ _ Ht).
    by rewrite (proj2 (assert_string_None v) Hv).
Qed.

Lemma string_conversion_witness :
  validateCredentialLinkAttribute (mkAttribute "name" "" "string" "") "name" (Int 7)
  = Err (TypeMismatchError "name").
Proof.
  apply (proj2 (string_conversion (mkAttribute "name" "" "string" "") eq_refl)).
  intros s. discriminate.
Defined.

(** A value is converted only if it is a string, and the converted value is
    a string, an integer or a boolean. *)
Lemma validate_ok_string a name v r :
  validateCredentialLinkAttribute a name v = Ok r →
  (∃ s, v = Str s)
  ∧ ((Type_ a = "string" ∧ r = v)
     ∨ (Type_ a = "integer" ∧ ∃ n, r = Int n)
     ∨ (Type_ a = "boolean" ∧ ∃ b, r = Bool b)).
Proof.
  unfold validateCredentialLinkAttribute. intros Hv.
  repeat case_decide; try done;
    (destruct v; simpl in Hv; try done; split; [by eauto|]).
  - injection Hv as <-. by left.
  - destruct (strconv.Atoi s) as [n [e|]]; [done|]. injection Hv as <-.
    right. left. by eauto.
  - destruct (strconv.ParseBool s) as [b [e|]]; [done|]. injection Hv as <-.
    right. right. by eauto.
Qed.

(** ** [ValidateAndConvert] as a whole *)

Lemma AttributeNames_range_ids props : ∀ acc attrs,
  AttributeNames_range props acc = Ok attrs →
  ID <$> attrs = (ID <$> acc) ++ keys props.
Proof.
  induction props as [|[k prop] props IH]; intros acc attrs H; simpl in *.
  - injection H as <-. by rewrite app_nil_r.
  - destruct (mapstructure.Decode prop zero_Attribute) as [a [e|]]; [done|].
    apply IH in H. rewrite H, fmap_app. simpl. by rewrite <- app_assoc.
Qed.

(** The ids of the descriptors extracted are the keys of the innermost
    mapping. *)
Lemma AttributeNames_ids s props attrs :
  at_path s props → AttributeNames s = Ok attrs → ID <$> attrs = keys props.
Proof.
  intros Hpath Hs. rewrite (AttributeNames_at_path _ _ Hpath) in Hs.
  by apply AttributeNames_range_ids in Hs.
Qed.

Lemma NoDup_ID_inj (attrs : list Attribute) a1 a2 :
  NoDup (ID <$> attrs) → a1 ∈ attrs → a2 ∈ attrs → ID a1 = ID a2 → a1 = a2.
Proof.
  intros Hnd H1 H2 Hid.
  apply list_elem_of_lookup in H1 as [i1 H1]. apply list_elem_of_lookup in H2 as [i2 H2].
  assert (i1 = i2) as ->.
  { apply (NoDup_lookup _ i1 i2 (ID a1) Hnd); rewrite list_lookup_fmap.
    - by rewrite H1.
    - by rewrite H2, Hid. }
  congruence.
Qed.

(** Whatever [ValidateAndConvert] returns, a value, an error or a panic, the
    caller's slice keeps its length, the names of its elements and their
    other fields: values are all the call ever writes. *)
Theorem ValidateAndConvert_keeps_shape {F : Type}
    (s : JSONSchema) (cs cs' : list (CredentialAttributes F)) r :
  ValidateAndConvert s cs = (cs', r) →
  length cs' = length cs
  ∧ Name <$> cs' = Name <$> cs
  ∧ fields <$> cs' = fields <$> cs.
Proof.
  unfold ValidateAndConvert.
  destruct (AttributeNames s) as [attrs|e|p]; [|by intros [= <- <-]..].
  destruct (ValidateAndConvert_range (length cs) 0 cs attrs) as [cs1 e] eqn:Hloop.
  apply range_frame in Hloop.
  destruct e; [case_decide|..]; by intros [= <- <-].
Qed.

Lemma ValidateAndConvert_keeps_shape_witness :
  Name <$> [attribute "age" (Int 42); attribute "nome" (Str "x")]
  = Name <$> [attribute "age" (Str "42"); attribute "nome" (Str "x")].
Proof.
  refine (proj1 (proj2 (ValidateAndConvert_keeps_shape sample_schema
            [attribute "age" (Str "42"); attribute "nome" (Str "x")]
            [attribute "age" (Int 42); attribute "nome" (Str "x")]
            (Panics (IndexOutOfRange (-1) 2)) _))).
  reflexivity.
Defined.

(** A successful call is a loop that ran to its end over every attribute
    and left one descriptor. *)
Lemma ValidateAndConvert_ok_inv {F : Type}
    (s : JSONSchema) (cs cs' out : list (CredentialAttributes F)) :
  ValidateAndConvert s cs = (cs', Ok out) →
  ∃ attrs rest,
    AttributeNames s = Ok attrs
    ∧ ValidateAndConvert_range (length cs) 0 cs attrs = (out, Completed rest)
    ∧ length rest = 1%nat.
Proof.
  unfold ValidateAndConvert.
  destruct (AttributeNames s) as [attrs|e|p] eqn:Hs; [|by intros [=]..].
  destruct (ValidateAndConvert_range (length cs) 0 cs attrs) as [cs1 [rest|err|p]] eqn:Hloop;
    [|by intros [=]..].
  case_decide as Hlen; intros [= <- <-].
  exists attrs, rest. by repeat split.
Qed.

(** After a successful call every attribute carries the converted value of
    the value supplied. *)
Lemma ValidateAndConvert_ok_converted {F : Type}
    (s : JSONSchema) (cs cs' out : list (CredentialAttributes F)) attrs :
  ValidateAndConvert s cs = (cs', Ok out) →
  AttributeNames s = Ok attrs →
  length out = length cs
  ∧ ∀ j c, cs !! j = Some c →
      ∃ a v, a ∈ attrs ∧ ID a = Name c
             ∧ validateCredentialLinkAttribute a (Name c) (Value c) = Ok v
             ∧ out !! j = Some (set_Value v c).
Proof.
  intros Hok Hs.
  destruct (ValidateAndConvert_ok_inv _ _ _ _ Hok) as (attrs' & rest & Hs' & Hloop & _).
  assert (attrs' = attrs) as -> by congruence.
  split; [by apply range_frame in Hloop as (? & _)|].
  intros j c Hc. eapply range_completed_values; [done| |done].
  apply lookup_lt_Some in Hc. lia.
Qed.

(** When [ValidateAndConvert] succeeds, the names supplied and the id of
    one more descriptor are, up to their order, the ids of the descriptors
    of the schema: every descriptor but one is matched by exactly one
    attribute. *)
Theorem ValidateAndConvert_ok_names {F : Type}
    (s : JSONSchema) (cs cs' out : list (CredentialAttributes F)) :
  ValidateAndConvert s cs = (cs', Ok out) →
  ∃ attrs left,
    AttributeNames s = Ok attrs
    ∧ left ∈ attrs
    ∧ ID <$> attrs ≡ₚ (Name <$> cs) ++ [ID left].
Proof.
  unfold ValidateAndConvert.
  destruct (AttributeNames s) as [attrs|e|p] eqn:Hs; [|by intros [=]..].
  destruct (ValidateAndConvert_range (length cs) 0 cs attrs) as [cs1 [rest|err|p]] eqn:Hloop;
    [|by intros [=]..].
  case_decide as Hlen; intros [= <- <-].
  destruct rest as [|left [|]]; try done.
  pose proof (range_completed_perm _ _ _ _ _ _ Hloop) as Hperm.
  rewrite drop_0, firstn_all in Hperm.
  exists attrs, left. split; [done|]. split; [|done].
  assert (ID left ∈ ID <$> attrs) as Hin.
  { rewrite <- Hperm. apply elem_of_app. right. apply list_elem_of_here. }
  clear Hperm. revert Hin Hloop. clear. intros Hin Hloop.
  assert (∀ n i (cs cs1 : list (CredentialAttributes F)) attrs rest a,
            ValidateAndConvert_range n i cs attrs = (cs1, Completed rest) →
            a ∈ rest → a ∈ attrs) as Hsub.
  { clear. induction n as [|n IH]; intros i cs cs1 attrs rest a H Ha.
    - by injection H as <- <-.
    - apply range_turn in H as [(c & k & a0 & v & _ & _ & _ & H)|[_ H]].
      + eapply list_elem_of_delete_inv. by eapply IH.
      + destruct H as [[_ [=]]|[(? & _ & _ & [=])|(? & ? & ? & ? & _ & _ & _ & [=])]]. }
  eapply Hsub; [done|]. apply list_elem_of_here.
Qed.

Lemma ValidateAndConvert_ok_names_witness :
  ∃ attrs left,
    AttributeNames sample_schema = Ok attrs
    ∧ left ∈ attrs
    ∧ ID <$> attrs ≡ₚ ["age"; "name"] ++ [ID left].
Proof.
  apply (ValidateAndConvert_ok_names sample_schema
           [attribute "age" (Str "42"); attribute "name" (Str "alice")]
           [attribute "age" (Int 42); attribute "name" (Str "alice")]
           [attribute "age" (Int 42); attribute "name" (Str "alice")]).
  reflexivity.
Defined.

(** For a schema document, whose keys are distinct, [ValidateAndConvert]
    succeeds only on attributes with distinct names, all of them keys of the
    schema, and one fewer than the schema has keys: a name supplied twice
    never succeeds. *)
Theorem ValidateAndConvert_ok_distinct_names {F : Type}
    (s : JSONSchema) props (cs cs' out : list (CredentialAttributes F)) :
  at_path s props →
  distinct_keys props →
  ValidateAndConvert s cs = (cs', Ok out) →
  NoDup (Name <$> cs)
  ∧ (∀ c, c ∈ cs → Name c ∈ keys props)
  ∧ S (length cs) = length props.
Proof.
  intros Hpath Hkeys Hok.
  destruct (ValidateAndConvert_ok_inv _ _ _ _ Hok) as (attrs & rest & Hs & Hloop & Hrest).
  pose proof (range_completed_perm _ _ _ _ _ _ Hloop) as Hperm.
  rewrite drop_0, firstn_all, (AttributeNames_ids _ _ _ Hpath Hs) in Hperm.
  unfold distinct_keys in Hkeys. rewrite <- Hperm in Hkeys.
  apply NoDup_app in Hkeys as (Hnd & _ & _).
  split; [done|]. split.
  - intros c Hc. rewrite <- Hperm. apply elem_of_app. left.
    by apply list_elem_of_fmap_2.
  - apply Permutation_length in Hperm.
    unfold keys in Hperm. rewrite length_app, !length_fmap in Hperm. lia.
Qed.

Lemma ValidateAndConvert_ok_distinct_names_witness :
  NoDup (Name <$> [attribute "age" (Str "42"); attribute "name" (Str "alice")]).
Proof.
  refine (proj1 (ValidateAndConvert_ok_distinct_names sample_schema
            [("age", Map [("type", Str "integer")]);
             ("name", Map [("type", Str "string")]);
             ("id", Map [("type", Str "string")])]
            [attribute "age" (Str "42"); attribute "name" (Str "alice")]
            [attribute "age" (Int 42); attribute "name" (Str "alice")]
            [attribute "age" (Int 42); attribute "name" (Str "alice")] _ _ _)).
  - apply at_path_schema_with.
  - unfold distinct_keys. simpl.
    repeat (apply NoDup_cons; split;
            [intros H; repeat (apply elem_of_cons in H as [H|H]; [discriminate H|]);
             by apply elem_of_nil in H|]).
    apply NoDup_nil_2.
  - reflexivity.
Defined.

(** [ValidateAndConvert] is not atomic.  When the conversion of the
    attribute at index [i] fails, the call returns the error with the
    caller's slice changed: each attribute before [i] is the attribute
    supplied with its value replaced by the converted value [v], so that the
    value found there after the call is [v]; the attributes from [i] on are
    as supplied.  Wherever a converted value differs from the value
    supplied, the slice after the call differs from the slice supplied. *)
Theorem ValidateAndConvert_error_keeps_converted_prefix {F : Type}
    (s : JSONSchema) (cs : list (CredentialAttributes F)) attrs i cs1 rest c a err :
  AttributeNames s = Ok attrs →
  ValidateAndConvert_range i 0 cs attrs = (cs1, Completed rest) →
  cs !! i = Some c →
  matched rest (Name c) a →
  validateCredentialLinkAttribute a (Name c) (Value c) = Err err →
  ValidateAndConvert s cs = (cs1, Err err)
  ∧ (∀ j, (i ≤ j)%nat → cs1 !! j = cs !! j)
  ∧ (∀ j c', (j < i)%nat → cs !! j = Some c' →
       ∃ a' v, a' ∈ attrs ∧ ID a' = Name c'
               ∧ validateCredentialLinkAttribute a' (Name c') (Value c') = Ok v
               ∧ cs1 !! j = Some (set_Value v c')
               ∧ cs1 !! j = Some (mkCredentialAttributes (Name c') v (fields c'))
               ∧ Value <$> cs1 !! j = Some v
               ∧ (v ≠ Value c' → cs1 ≠ cs)).
Proof.
  intros Hs Hpre Hc Hm Hv.
  split; [apply (proj1 (ValidateAndConvert_conversion_error _ _ _ _ _ _ _ _ _
                          Hs Hpre Hc Hm Hv))|].
  split.
  - intros j Hj. apply (range_untouched _ _ _ _ _ _ j Hpre). lia.
  - intros j c' Hj Hc'.
    destruct (range_completed_values _ _ _ _ _ _ j c' Hpre) as (a' & v & Ha' & Hid & Hv' & Hj');
      [lia|done|].
    exists a', v. split; [done|]. split; [done|]. split; [done|]. split; [done|].
    rewrite Hj'. split; [reflexivity|]. split; [reflexivity|].
    intros Hne Heq. rewrite Heq, Hc' in Hj'. injection Hj' as Hj'.
    apply Hne. by rewrite Hj'.
Qed.

Lemma ValidateAndConvert_error_keeps_converted_prefix_witness :
  ValidateAndConvert sample_schema
    [attribute "age" (Str "42"); attribute "name" (Int 7)]
  = ([attribute "age" (Int 42); attribute "name" (Int 7)],
     Err (TypeMismatchError "name")).
Proof.
  refine (proj1 (ValidateAndConvert_error_keeps_converted_prefix sample_schema
            [attribute "age" (Str "42"); attribute "name" (Int 7)]
            [mkAttribute "age" "" "integer" ""; mkAttribute "name" "" "string" "";
             mkAttribute "id" "" "string" ""]
            1
            [attribute "age" (Int 42); attribute "name" (Int 7)]
            [mkAttribute "name" "" "string" ""; mkAttribute "id" "" "string" ""]
            (attribute "name" (Int 7)) (mkAttribute "name" "" "string" "")
            (TypeMismatchError "name")
            _ _ _ _ _)).
  - reflexivity.
  - reflexivity.
  - reflexivity.
  - by exists 0%nat.
  - reflexivity.
Defined.

(** [ValidateAndConvert] succeeds only when every value supplied is a
    string, and every value it returns is a string, an integer or a
    boolean. *)
Theorem ValidateAndConvert_ok_values {F : Type}
    (s : JSONSchema) (cs cs' out : list (CredentialAttributes F)) :
  ValidateAndConvert s cs = (cs', Ok out) →
  (∀ c, c ∈ cs → ∃ str, Value c = Str str)
  ∧ (∀ c, c ∈ out →
       (∃ str, Value c = Str str) ∨ (∃ n, Value c = Int n) ∨ (∃ b, Value c = Bool b)).
Proof.
  intros Hok.
  destruct (ValidateAndConvert_ok_inv _ _ _ _ Hok) as (attrs & _ & Hs & _).
  destruct (ValidateAndConvert_ok_converted _ _ _ _ _ Hok Hs) as (Hlen & Hvalues).
  split.
  - intros c Hc. apply list_elem_of_lookup in Hc as [j Hj].
    destruct (Hvalues j c Hj) as (a & v & _ & _ & Hv & _).
    by apply validate_ok_string in Hv as [? _].
  - intros c' Hc'. apply list_elem_of_lookup in Hc' as [j Hj].
    assert (is_Some (cs !! j)) as [c Hc].
    { apply lookup_lt_is_Some. rewrite <- Hlen. by eapply lookup_lt_Some. }
    destruct (Hvalues j c Hc) as (a & v & _ & _ & Hv & Hout).
    assert (c' = set_Value v c) as -> by congruence. simpl.
    apply validate_ok_string in Hv as [[str Hstr] [[_ ->]|[[_ [n ->]]|[_ [b ->]]]]];
      by eauto.
Qed.

Lemma ValidateAndConvert_ok_values_witness :
  (∃ str, Value (attribute "age" (Str "42")) = Str str)
  ∧ ((∃ str, Value (attribute "age" (Int 42)) = Str str)
     ∨ (∃ n, Value (attribute "age" (Int 42)) = Int n)
     ∨ (∃ b, Value (attribute "age" (Int 42)) = Bool b)).
Proof.
  destruct (ValidateAndConvert_ok_values sample_schema
              [attribute "age" (Str "42"); attribute "name" (Str "alice")]
              [attribute "age" (Int 42); attribute "name" (Str "alice")]
              [attribute "age" (Int 42); attribute "name" (Str "alice")] eq_refl)
    as [Hin Hout].
  split; [apply Hin|apply Hout]; apply list_elem_of_here.
Defined.

(** A successful call cannot be repeated on the slice it returns when one
    of the attributes names an integer or a boolean of the schema: the
    value of that attribute is no longer a string, and the second call does
    not succeed. *)
Theorem ValidateAndConvert_not_repeatable {F : Type}
    (s : JSONSchema) props (cs cs' out : list (CredentialAttributes F)) attrs c a :
  at_path s props →
  distinct_keys props →
  AttributeNames s = Ok attrs →
  ValidateAndConvert s cs = (cs', Ok out) →
  c ∈ cs → a ∈ attrs → ID a = Name c → Type_ a ≠ "string" →
  ∀ cs'' out', ValidateAndConvert s out ≠ (cs'', Ok out').
Proof.
  intros Hpath Hkeys Hs Hok Hc Ha Hid Htype cs'' out' Hok2.
  assert (NoDup (ID <$> attrs)) as Hnd.
  { by rewrite (AttributeNames_ids _ _ _ Hpath Hs). }
  destruct (ValidateAndConvert_ok_converted _ _ _ _ _ Hok Hs) as (_ & Hvalues).
  apply list_elem_of_lookup in Hc as [j Hj].
  destruct (Hvalues j c Hj) as (a1 & v & Ha1 & Hid1 & Hv & Hout).
  assert (a1 = a) as -> by (apply (NoDup_ID_inj attrs); [done..|congruence]).
  destruct (ValidateAndConvert_ok_converted _ _ _ _ _ Hok2 Hs) as (_ & Hvalues2).
  destruct (Hvalues2 j _ Hout) as (a2 & v2 & Ha2 & Hid2 & Hv2 & _).
  simpl in Hid2, Hv2.
  assert (a2 = a) as -> by (apply (NoDup_ID_inj attrs); [done..|congruence]).
  apply validate_ok_string in Hv as [_ [[? _]|[[_ [n ->]]|[_ [b ->]]]]]; [done|..];
    by apply validate_ok_string in Hv2 as [[? [=]] _].
Qed.

Lemma ValidateAndConvert_not_repeatable_witness :
  ValidateAndConvert sample_schema
    [attribute "age" (Int 42); attribute "name" (Str "alice")]
  ≠ ([attribute "age" (Int 42); attribute "name" (Str "alice")],
     Ok [attribute "age" (Int 42); attribute "name" (Str "alice")]).
Proof.
  refine (ValidateAndConvert_not_repeatable sample_schema
            [("age", Map [("type", Str "integer")]);
             ("name", Map [("type", Str "string")]);
             ("id", Map [("type", Str "string")])]
            [attribute "age" (Str "42"); attribute "name" (Str "alice")]
            [attribute "age" (Int 42); attribute "name" (Str "alice")]
            [attribute "age" (Int 42); attribute "name" (Str "alice")]
            [mkAttribute "age" "" "integer" ""; mkAttribute "name" "" "string" "";
             mkAttribute "id" "" "string" ""]
            (attribute "age" (Str "42")) (mkAttribute "age" "" "integer" "")
            _ _ _ _ _ _ _ _ _ _).
  - apply at_path_schema_with.
  - unfold distinct_keys. simpl.
    repeat (apply NoDup_cons; split;
            [intros H; repeat (apply elem_of_cons in H as [H|H]; [discriminate H|]);
             by apply elem_of_nil in H|]).
    apply NoDup_nil_2.
  - reflexivity.
  - reflexivity.
  - apply list_elem_of_here.
  - apply list_elem_of_here.
  - reflexivity.
  - discriminate.
Defined.

(** With no attribute supplied, [ValidateAndConvert] succeeds exactly when
    the schema has a single descriptor, and returns the empty slice. *)
Theorem ValidateAndConvert_nil {F : Type} (s : JSONSchema) :
  (∃ cs' : list (CredentialAttributes F), ∃ out, ValidateAndConvert s [] = (cs', Ok out))
  ↔ ∃ a, AttributeNames s = Ok [a].
Proof.
  unfold ValidateAndConvert. split.
  - intros (cs' & out & H).
    destruct (AttributeNames s) as [[|a [|]]|e|p]; simpl in H; try done. by exists a.
  - intros [a ->]. simpl. by exists [], [].
Qed.

(** ** The outcomes of the conversion and of the call *)

(** One turn of the loop, by the descriptor the name is matched to. *)
Lemma range_step {F : Type} n i (cs : list (CredentialAttributes F)) (attrs : list Attribute) :
  ValidateAndConvert_range (S n) i cs attrs =
    match cs !! i with
    | None => (cs, Panicked (IndexOutOfRange (Z.of_nat i) (length cs)))
    | Some c =>
        match list_find (λ a, ID a = Name c) attrs with
        | None => (cs, Panicked (IndexOutOfRange (-1) (length attrs)))
        | Some (k, a) =>
            match validateCredentialLinkAttribute a (Name c) (Value c) with
            | Ok v =>
                ValidateAndConvert_range n (S i) (alter (set_Value v) i cs) (delete k attrs)
            | Err err => (cs, Returned err)
            | Panics p => (cs, Panicked p)
            end
        end
    end.
Proof.
  simpl. destruct (cs !! i) as [c|]; [|done].
  destruct (list_find (λ a, ID a = Name c) attrs) as [[k a]|] eqn:Hfind.
  - destruct (findIndex_found _ _ _ _ Hfind) as (-> & -> & ->).
    by destruct (validateCredentialLinkAttribute a (Name c) (Value c)).
  - by destruct (findIndex_not_found _ _ Hfind) as (-> & ->).
Qed.

Lemma validate_no_panic a name v p : validateCredentialLinkAttribute a name v ≠ Panics p.
Proof.
  unfold validateCredentialLinkAttribute. repeat (case_decide || case_match); discriminate.
Qed.

Lemma validate_error a name v e :
  validateCredentialLinkAttribute a name v = Err e →
  e = TypeMismatchError name ∨ e = ParseError name "an integer"
  ∨ e = ParseError name "a boolean" ∨ e = UnsupportedTypeError name.
Proof.
  unfold validateCredentialLinkAttribute.
  repeat (case_decide || case_match); intros [= <-]; by auto.
Qed.

(** The conversion of a value never panics; when it fails, the error is one
    of the four conversion errors, each carrying the name of the attribute;
    and of the descriptor it reads the type only. *)
Theorem validateCredentialLinkAttribute_outcome (a : Attribute) (name : string) (v : any) :
  (∀ p, validateCredentialLinkAttribute a name v ≠ Panics p)
  ∧ (∀ e, validateCredentialLinkAttribute a name v = Err e →
       e = TypeMismatchError name ∨ e = ParseError name "an integer"
       ∨ e = ParseError name "a boolean" ∨ e = UnsupportedTypeError name)
  ∧ (∀ a', Type_ a' = Type_ a →
       validateCredentialLinkAttribute a' name v = validateCredentialLinkAttribute a name v).
Proof.
  split; [|split].
  - intros p. apply validate_no_panic.
  - intros e. apply validate_error.
  - intros a' Ht. unfold validateCredentialLinkAttribute. by rewrite Ht.
Qed.

Lemma validateCredentialLinkAttribute_outcome_witness :
  validateCredentialLinkAttribute (mkAttribute "n" "Title" "integer" "fmt") "n" (Str "7")
  = validateCredentialLinkAttribute (mkAttribute "age" "" "integer" "") "n" (Str "7").
Proof.
  apply (proj2 (proj2 (validateCredentialLinkAttribute_outcome
                         (mkAttribute "age" "" "integer" "") "n" (Str "7")))).
  reflexivity.
Defined.

(** The extraction loop returns the descriptors when every sub-mapping
    decodes and an error otherwise. *)
Lemma AttributeNames_range_total props : ∀ acc,
  (Forall (λ kv, decodable kv.2) props
   ∧ AttributeNames_range props acc =
       Ok (acc ++ ((λ kv, set_ID kv.1 (mapstructure.Decode kv.2 zero_Attribute).1) <$> props)))
  ∨ (¬ Forall (λ kv, decodable kv.2) props
     ∧ ∃ e, AttributeNames_range props acc = Err e).
Proof.
  induction props as [|[k prop] props IH]; intros acc.
  - left. split; [done|]. simpl. by rewrite app_nil_r.
  - simpl. destruct (mapstructure.Decode prop zero_Attribute) as [a [e|]] eqn:Hd.
    + right. split; [|by eauto]. intros H. inversion H as [|? ? Hp _]; subst.
      unfold decodable in Hp. simpl in Hp. by rewrite Hd in Hp.
    + destruct (IH (acc ++ [set_ID k a])) as [[Hf ->]|[Hnf [e ->]]].
      * left. split.
        -- constructor; [|done]. unfold decodable. simpl. by rewrite Hd.
        -- simpl. by rewrite <- app_assoc.
      * right. split; [|by eauto]. intros H. inversion H; subst. by apply Hnf.
Qed.

Lemma AttributeNames_no_panic s p : AttributeNames s ≠ Panics p.
Proof.
  unfold AttributeNames. repeat case_match; try done.
  match goal with |- AttributeNames_range ?l ?acc ≠ _ =>
    destruct (AttributeNames_range_total l acc) as [[_ ->]|[_ [e ->]]] end; done.
Qed.

Lemma range_returned {F : Type} n : ∀ i (cs cs' : list (CredentialAttributes F)) attrs err,
  ValidateAndConvert_range n i cs attrs = (cs', Returned err) →
  ∃ msg, err = newCredentialLinkAttributeError msg.
Proof.
  induction n as [|n IH]; intros i cs cs' attrs err; [done|].
  rewrite range_step. repeat case_match; try done; [by apply IH|].
  intros [= <- <-].
  match goal with H : validateCredentialLinkAttribute _ _ _ = Err _ |- _ =>
    apply validate_error in H as [-> | [-> | [-> | ->]]] end; by eauto.
Qed.

(** A loop that panics has run some turns to their end and then met a name
    that none of the descriptors left has. *)
Lemma range_panicked {F : Type} n : ∀ i (cs cs' : list (CredentialAttributes F)) attrs p,
  (i + n ≤ length cs)%nat →
  ValidateAndConvert_range n i cs attrs = (cs', Panicked p) →
  ∃ m rest c,
    (m < n)%nat
    ∧ ValidateAndConvert_range m i cs attrs = (cs', Completed rest)
    ∧ cs !! (i + m)%nat = Some c
    ∧ (Name c ∉ ID <$> rest)
    ∧ p = IndexOutOfRange (-1) (length rest).
Proof.
  induction n as [|n IH]; intros i cs cs' attrs p Hn; [done|].
  rewrite range_step.
  destruct (cs !! i) as [c|] eqn:Hc.
  2:{ apply lookup_ge_None in Hc. lia. }
  destruct (list_find (λ a, ID a = Name c) attrs) as [[k a]|] eqn:Hfind.
  - destruct (validateCredentialLinkAttribute a (Name c) (Value c)) as [v|err|q] eqn:Hv;
      [|done|by destruct (validate_no_panic a (Name c) (Value c) q)].
    intros H. apply IH in H as (m & rest & c' & Hm & Hpre & Hc' & Hnot & ->).
    2:{ rewrite length_alter. lia. }
    exists (S m), rest, c'. split; [lia|]. split; [by rewrite range_step, Hc, Hfind, Hv|].
    split; [|done].
    rewrite list_lookup_alter_ne in Hc' by lia.
    by replace (i + S m)%nat with (S i + m)%nat by lia.
  - intros [= <- <-]. exists 0%nat, attrs, c. split; [lia|]. split; [done|].
    rewrite Nat.add_0_r. split; [done|]. split; [|done].
    by apply list_find_None_ID.
Qed.

(** The only panic of [ValidateAndConvert] is the index -1: the call panics
    only at an attribute whose name none of the descriptors still unmatched
    has, after the attributes before it have been converted.  Neither the
    extraction, nor the conversion of a value, nor the removal of a
    descriptor ever panics in it. *)
Theorem ValidateAndConvert_panics_only_unmatched {F : Type}
    (s : JSONSchema) (cs cs' : list (CredentialAttributes F)) (p : panic) :
  ValidateAndConvert s cs = (cs', Panics p) →
  ∃ attrs i rest c,
    AttributeNames s = Ok attrs
    ∧ ValidateAndConvert_range i 0 cs attrs = (cs', Completed rest)
    ∧ cs !! i = Some c
    ∧ (Name c ∉ ID <$> rest)
    ∧ p = IndexOutOfRange (-1) (length rest).
Proof.
  unfold ValidateAndConvert.
  destruct (AttributeNames s) as [attrs|e|q] eqn:Hs;
    [|done|by destruct (AttributeNames_no_panic s q)].
  destruct (ValidateAndConvert_range (length cs) 0 cs attrs) as [cs1 [rest|err|q]] eqn:Hloop;
    [by case_decide|done|].
  intros [= <- <-].
  apply range_panicked in Hloop as (m & rest & c & _ & Hpre & Hc & Hnot & ->); [|simpl; lia].
  by exists attrs, m, rest, c.
Qed.

Lemma ValidateAndConvert_panics_only_unmatched_witness :
  ∃ attrs i rest c,
    AttributeNames sample_schema = Ok attrs
    ∧ ValidateAndConvert_range i 0 [attribute "age" (Str "42"); attribute "nome" (Str "x")] attrs
      = ([attribute "age" (Int 42); attribute "nome" (Str "x")], Completed rest)
    ∧ [attribute "age" (Str "42"); attribute "nome" (Str "x")] !! i = Some c
    ∧ (Name c ∉ ID <$> rest)
    ∧ IndexOutOfRange (-1) 2 = IndexOutOfRange (-1) (length rest).
Proof.
  apply (ValidateAndConvert_panics_only_unmatched sample_schema
           [attribute "age" (Str "42"); attribute "nome" (Str "x")]
           [attribute "age" (Int 42); attribute "nome" (Str "x")]
           (IndexOutOfRange (-1) 2)).
  reflexivity.
Defined.

(** An error returned by [ValidateAndConvert] is [ErrProcessSchema], when
    the extraction of the descriptors fails, and then the caller's slice is
    untouched; or else a credential link attribute error. *)
Theorem ValidateAndConvert_errors {F : Type}
    (s : JSONSchema) (cs cs' : list (CredentialAttributes F)) (e : error) :
  ValidateAndConvert s cs = (cs', Err e) →
  (e = ErrProcessSchema ∧ cs' = cs ∧ ∃ e', AttributeNames s = Err e')
  ∨ (∃ attrs msg, AttributeNames s = Ok attrs ∧ e = newCredentialLinkAttributeError msg).
Proof.
  unfold ValidateAndConvert.
  destruct (AttributeNames s) as [attrs|e'|q] eqn:Hs; [| |done].
  - destruct (ValidateAndConvert_range (length cs) 0 cs attrs) as [cs1 [rest|err|q]] eqn:Hloop;
      [| |done].
    + case_decide; [|done]. intros [= <- <-]. right. by eauto.
    + intros [= <- <-]. right. apply range_returned in Hloop as [msg ->]. by eauto.
  - intros [= <- <-]. left. by eauto.
Qed.

Lemma ValidateAndConvert_errors_witness :
  (ErrProcessSchema = ErrProcessSchema
   ∧ [attribute "age" (Str "42")] = [attribute "age" (Str "42")]
   ∧ ∃ e', AttributeNames (mkJSONSchema []) = Err e')
  ∨ (∃ attrs msg, AttributeNames (mkJSONSchema []) = Ok attrs
                  ∧ ErrProcessSchema = newCredentialLinkAttributeError msg).
Proof.
  apply (ValidateAndConvert_errors (mkJSONSchema []) [attribute "age" (Str "42")]
           [attribute "age" (Str "42")] ErrProcessSchema).
  reflexivity.
Defined.

(** With distinct ids, the loop goes the same way for the descriptors in
    any order: the caller's slice ends the same, and so does the loop, up
    to the order of the descriptors left over. *)
Lemma range_perm {F : Type} n : ∀ i (cs : list (CredentialAttributes F)) attrs attrs',
  attrs ≡ₚ attrs' →
  NoDup (ID <$> attrs) →
  (ValidateAndConvert_range n i cs attrs).1 = (ValidateAndConvert_range n i cs attrs').1
  ∧ match (ValidateAndConvert_range n i cs attrs).2,
          (ValidateAndConvert_range n i cs attrs').2 with
    | Completed r, Completed r' => r ≡ₚ r'
    | Returned err, Returned err' => err = err'
    | Panicked p, Panicked p' => p = p'
    | _, _ => False
    end.
Proof.
  induction n as [|n IH]; intros i cs attrs attrs' Hperm Hnd; [done|].
  rewrite !range_step.
  destruct (cs !! i) as [c|]; [|done].
  destruct (list_find (λ a, ID a = Name c) attrs) as [[k a]|] eqn:H1;
    destruct (list_find (λ a, ID a = Name c) attrs') as [[k' a']|] eqn:H2.
  - apply list_find_Some in H1 as (Hk & Hid & _).
    apply list_find_Some in H2 as (Hk' & Hid' & _).
    assert (a' = a) as ->.
    { apply (NoDup_ID_inj attrs); [done| |by eapply list_elem_of_lookup_2|congruence].
      rewrite Hperm. by eapply list_elem_of_lookup_2. }
    destruct (validateCredentialLinkAttribute a (Name c) (Value c)); [|done..].
    apply IH.
    + apply (Permutation_cons_inv (a:=a)).
      by rewrite <- !delete_Permutation.
    + apply (NoDup_cons_1_2 (ID a)).
      rewrite <- fmap_cons, <- delete_Permutation by done. done.
  - exfalso. apply list_find_Some in H1 as (Hk & Hid & _).
    apply list_find_None in H2. rewrite <- Hperm in H2.
    by apply (proj1 (Forall_lookup _ _) H2 k a).
  - exfalso. apply list_find_Some in H2 as (Hk & Hid & _).
    apply list_find_None in H1. rewrite Hperm in H1.
    by apply (proj1 (Forall_lookup _ _) H1 k' a').
  - simpl. split; [done|]. by rewrite Hperm.
Qed.

(** The order in which the properties of the schema are visited, which Go
    leaves unspecified for a map, has no effect on [ValidateAndConvert]:
    for two orders of the same properties, with distinct keys, the call
    leaves the caller's slice and returns the same. *)
Theorem ValidateAndConvert_order_independent {F : Type}
    (s s' : JSONSchema) (props props' : list (string * any))
    (cs : list (CredentialAttributes F)) :
  at_path s props →
  at_path s' props' →
  props ≡ₚ props' →
  distinct_keys props →
  ValidateAndConvert s cs = ValidateAndConvert s' cs.
Proof.
  intros Hpath Hpath' Hperm Hkeys. unfold ValidateAndConvert.
  rewrite (AttributeNames_at_path _ _ Hpath), (AttributeNames_at_path _ _ Hpath').
  destruct (AttributeNames_range_total props []) as [[Hd H1]|[Hnd [e H1]]];
    destruct (AttributeNames_range_total props' []) as [[Hd' H2]|[Hnd' [e' H2]]].
  - rewrite H1, H2. simpl app.
    set (f := λ kv : string * any,
                set_ID kv.1 (mapstructure.Decode kv.2 zero_Attribute).1) in *.
    assert (ID <$> (f <$> props) = keys props) as Hids
      by apply (AttributeNames_range_ids props [] _ H1).
    destruct (range_perm (length cs) 0 cs (f <$> props) (f <$> props')) as [Hcs Hend].
    + by apply fmap_Permutation.
    + by rewrite Hids.
    + destruct (ValidateAndConvert_range (length cs) 0 cs (f <$> props)) as [cs1 e1],
               (ValidateAndConvert_range (length cs) 0 cs (f <$> props')) as [cs2 e2].
      simpl in Hcs, Hend. subst cs2.
      destruct e1, e2; try done; [|congruence..].
      apply Permutation_length in Hend. by rewrite Hend.
  - destruct Hnd'. by rewrite <- Hperm.
  - destruct Hnd. by rewrite Hperm.
  - by rewrite H1, H2.
Qed.

Lemma ValidateAndConvert_order_independent_witness :
  ValidateAndConvert sample_schema
    [attribute "name" (Str "alice"); attribute "age" (Str "42")]
  = ValidateAndConvert
      (schema_with [("name", Map [("type", Str "string")]);
                    ("age", Map [("type", Str "integer")]);
                    ("id", Map [("type", Str "string")])])
      [attribute "name" (Str "alice"); attribute "age" (Str "42")].
Proof.
  apply (ValidateAndConvert_order_independent
           sample_schema
           (schema_with [("name", Map [("type", Str "string")]);
                         ("age", Map [("type", Str "integer")]);
                         ("id", Map [("type", Str "string")])])
           [("age", Map [("type", Str "integer")]);
            ("name", Map [("type", Str "string")]);
            ("id", Map [("type", Str "string")])]
           [("name", Map [("type", Str "string")]);
            ("age", Map [("type", Str "integer")]);
            ("id", Map [("type", Str "string")])]).
  - apply at_path_schema_with.
  - apply at_path_schema_with.
  - apply perm_swap.
  - unfold distinct_keys. simpl.
    repeat (apply NoDup_cons; split;
            [intros H; repeat (apply elem_of_cons in H as [H|H]; [discriminate H|]);
             by apply elem_of_nil in H|]).
    apply NoDup_nil_2.
Defined.

(** For a document whose three levels are mappings, [AttributeNames]
    returns descriptors exactly when every sub-mapping decodes; it never
    panics, whatever the document. *)
Theorem AttributeNames_succeeds_iff (s : JSONSchema) (props : list (string * any)) :
  at_path s props →
  ((∃ attrs, AttributeNames s = Ok attrs) ↔ Forall (λ kv, decodable kv.2) props)
  ∧ ∀ s' p, AttributeNames s' ≠ Panics p.
Proof.
  intros Hpath. split; [|apply AttributeNames_no_panic].
  rewrite (AttributeNames_at_path _ _ Hpath).
  destruct (AttributeNames_range_total props []) as [[Hd ->]|[Hnd [e ->]]].
  - split; [done|]. by eauto.
  - split; [by intros [? [=]]|done].
Qed.

Lemma AttributeNames_succeeds_iff_witness :
  ¬ ∃ attrs, AttributeNames (schema_with [("age", Str "integer")]) = Ok attrs.
Proof.
  intros H.
  apply (proj1 (AttributeNames_succeeds_iff (schema_with [("age", Str "integer")])
                  [("age", Str "integer")] (at_path_schema_with _))) in H.
  inversion H as [|? ? Hd _]. discriminate Hd.
Defined.

End further.
